(** * quantum-sim: circuit construction, token encodings and sampling

    A shallow embedding of [pyquant.py] (class [QuantumSimulator]) and of
    the encoding part of [quantum_token_processor.py] (class
    [QuantumTokenProcessor]).

    Python objects are mutable and exceptions leave the mutations made so
    far in place, so every method is a function from the object's state to
    a result (an exception or a value) together with the new state.

    Python integers are [Z]; Python floats are modelled by the real numbers
    they approximate (rounding is not modelled).

    The repository delegates the circuit log, the state-vector evolution
    and the sampling to the Qiskit libraries.  Module [Qiskit] models the
    part of that interface the repository calls. *)

From Stdlib Require Import ZArith NArith List Lia Reals Lra QArith Ascii String.
From stdpp Require Import base option list gmap strings.

Local Open Scope Z_scope.

(** ** Exceptions and the state-and-exception monad *)

Inductive exception : Type :=
| CircuitError        (* qiskit.circuit.exceptions.CircuitError *)
| QiskitError         (* qiskit.exceptions.QiskitError *)
| TypeError           (* Python's TypeError *)
| ValueError          (* Python's ValueError *)
| ConfigurationError  (* named by the specification *)
| InvalidShotCount    (* named by the specification *).

Definition M (S A : Type) : Type := S -> (exception + A) * S.

Definition ret {S A} (a : A) : M S A := fun s => (inr a, s).

Definition raise {S A} (e : exception) : M S A := fun s => (inl e, s).

Definition bind {S A B} (m : M S A) (k : A -> M S B) : M S B :=
  fun s => match m s with
           | (inr a, s') => k a s'
           | (inl e, s') => (inl e, s')
           end.

Notation "x <- m ;; k" := (bind m (fun x => k))
  (at level 100, m at next level, right associativity).
Notation "m ;;; k" := (bind m (fun _ => k))
  (at level 100, right associativity).

(** [return self]: the value handed back is the object as it now is. *)
Definition ret_self {S} : M S S := fun s => (inr s, s).

(** [for x in l: body(x)] *)
Fixpoint for_each {S A} (l : list A) (body : A -> M S unit) : M S unit :=
  match l with
  | [] => ret tt
  | x :: l' => body x ;;; for_each l' body
  end.

(** Python's [range(n)]: empty when [n <= 0]. *)
Definition range (n : Z) : list Z := map Z.of_nat (seq 0 (Z.to_nat n)).

(** ** The circuit library *)

Module Qiskit.

(** The instructions the repository appends.  Operands are stored in
    the library's argument order: parameters first, then qubits. *)
Inductive Instruction : Type :=
| HGate (qubit : Z)
| XGate (qubit : Z)
| CXGate (control target : Z)
| RZGate (phi : R) (qubit : Z)
| RYGate (theta : R) (qubit : Z)
| Measure (qubit cbit : Z).

(** Modelled from the spec: the Circuit Builder (section 4.2), which the
    repository takes from [qiskit.QuantumCircuit]: the sizes of the two
    registers and the ordered, append-only instruction log. *)
Record QuantumCircuit : Type := mkCircuit {
  num_qubits : Z;
  num_clbits : Z;
  data : list Instruction
}.

(** [QuantumCircuit(nq, nc)]: a register of negative size is refused by
    the register constructor; size 0 is accepted. *)
Definition new (nq nc : Z) : exception + QuantumCircuit :=
  if (nq <? 0) || (nc <? 0) then inl CircuitError
  else inr (mkCircuit nq nc []).

(** An integer bit specifier indexes the register like a Python list:
    [-size .. size-1] are accepted, negative ones count from the end. *)
Definition resolve (size idx : Z) : exception + Z :=
  if (0 <=? idx) && (idx <? size) then inr idx
  else if (- size <=? idx) && (idx <? 0) then inr (size + idx)
  else inl CircuitError.

Definition qarg (idx : Z) : M QuantumCircuit Z :=
  fun c => (resolve (num_qubits c) idx, c).

Definition carg (idx : Z) : M QuantumCircuit Z :=
  fun c => (resolve (num_clbits c) idx, c).

(** Modelled from the spec: [append(gate)] of the Circuit Builder adds
    the operation at the end of the log and changes nothing else. *)
Definition append (i : Instruction) : M QuantumCircuit unit :=
  fun c => (inr tt, mkCircuit (num_qubits c) (num_clbits c) (data c ++ [i])).

Definition h (qubit : Z) : M QuantumCircuit unit :=
  q <- qarg qubit ;; append (HGate q).

Definition x (qubit : Z) : M QuantumCircuit unit :=
  q <- qarg qubit ;; append (XGate q).

(** [cx] refuses equal control and target (duplicate qubit arguments). *)
Definition cx (control_qubit target_qubit : Z) : M QuantumCircuit unit :=
  c <- qarg control_qubit ;;
  t <- qarg target_qubit ;;
  if c =? t then raise CircuitError else append (CXGate c t).

Definition rz (phi : R) (qubit : Z) : M QuantumCircuit unit :=
  q <- qarg qubit ;; append (RZGate phi q).

Definition ry (theta : R) (qubit : Z) : M QuantumCircuit unit :=
  q <- qarg qubit ;; append (RYGate theta q).

Definition measure (qubit cbit : Z) : M QuantumCircuit unit :=
  q <- qarg qubit ;;
  c <- carg cbit ;;
  append (Measure q c).

(** [measure([q0, q1, ...], [c0, c1, ...])] broadcasts to one measure
    instruction per pair, in order. *)
Definition measure_list (qubits cbits : list Z) : M QuantumCircuit unit :=
  for_each (zip qubits cbits) (fun qc => measure qc.1 qc.2).

Definition is_measure (g : Instruction) : bool :=
  match g with Measure _ _ => true | _ => false end.

End Qiskit.

Import Qiskit.

(** ** The simulation backend

    [AerSimulator().run(circuit, shots).result().get_counts(circuit)].
    The repository has no state-vector code of its own: it calls
    [qiskit_aer].  The model follows the Statevector Engine and the
    Sampler of the specification (sections 4.1 and 4.4): the gates are
    applied once to the ground state, every shot draws one basis index
    from the Born distribution and is tallied under the bitstring of the
    classical register it leaves. *)

Module Aer.

(** Complex amplitudes as pairs (real part, imaginary part). *)
Definition C : Type := R * R.

Definition C0 : C := (0, 0)%R.
Definition C1 : C := (1, 0)%R.
Definition Cadd (a b : C) : C := (a.1 + b.1, a.2 + b.2)%R.
Definition Csub (a b : C) : C := (a.1 - b.1, a.2 - b.2)%R.
Definition Cmul (a b : C) : C :=
  (a.1 * b.1 - a.2 * b.2, a.1 * b.2 + a.2 * b.1)%R.
Definition Cscale (r : R) (a : C) : C := (r * a.1, r * a.2)%R.
Definition Cexp_i (t : R) : C := (cos t, sin t).
Definition Cnorm2 (a : C) : R := (a.1 * a.1 + a.2 * a.2)%R.

(** The amplitude of every basis index; qubit [k] is bit [k] of the
    index. *)
Definition Statevector : Type := N -> C.

Definition ground : Statevector :=
  fun i => if (i =? 0)%N then C1 else C0.

Definition flip (i : N) (k : N) : N := N.lxor i (N.shiftl 1 k).

(** Modelled from the spec: the unitary of each gate (section 4.1), which
    the repository takes from the backend; rotation conventions are the
    library's: [RZ(phi) = diag(e^(-i phi/2), e^(i phi/2))],
    [RY(theta) = [[cos, -sin], [sin, cos]]] of [theta/2]. *)
Definition apply_gate (g : Instruction) (psi : Statevector) : Statevector :=
  match g with
  | HGate q => fun i =>
      let k := Z.to_N q in
      if N.testbit i k
      then Cscale (/ sqrt 2) (Csub (psi (N.clearbit i k)) (psi i))
      else Cscale (/ sqrt 2) (Cadd (psi i) (psi (N.setbit i k)))
  | XGate q => fun i => psi (flip i (Z.to_N q))
  | CXGate c t => fun i =>
      if N.testbit i (Z.to_N c) then psi (flip i (Z.to_N t)) else psi i
  | RZGate phi q => fun i =>
      if N.testbit i (Z.to_N q)
      then Cmul (Cexp_i (phi / 2)) (psi i)
      else Cmul (Cexp_i (- (phi / 2))) (psi i)
  | RYGate theta q => fun i =>
      let k := Z.to_N q in
      if N.testbit i k
      then Cadd (Cscale (sin (theta / 2)) (psi (N.clearbit i k)))
                (Cscale (cos (theta / 2)) (psi i))
      else Csub (Cscale (cos (theta / 2)) (psi i))
                (Cscale (sin (theta / 2)) (psi (N.setbit i k)))
  | Measure _ _ => psi
  end.

Definition evolve (gates : list Instruction) : Statevector :=
  fold_left (fun psi g => apply_gate g psi) gates ground.

(** Born rule: the probability of basis index [i]. *)
Definition born (psi : Statevector) (i : N) : R := Cnorm2 (psi i).

(** The value classical bit [c] holds when basis index [i] is observed:
    the bit of the qubit last measured into it, 0 if none was. *)
Definition creg_bit (gates : list Instruction) (i : N) (c : Z) : bool :=
  fold_left (fun b g => match g with
                        | Measure q c' => if c' =? c then N.testbit i (Z.to_N q)
                                          else b
                        | _ => b
                        end) gates false.

(** Bitstrings show classical bit 0 rightmost. *)
Fixpoint bitstring (width : nat) (bit : Z -> bool) : string :=
  match width with
  | O => EmptyString
  | S w => String (if bit (Z.of_nat w) then "1"%char else "0"%char)
                  (bitstring w bit)
  end.

Definition outcome (c : QuantumCircuit) (i : N) : string :=
  bitstring (Z.to_nat (num_clbits c)) (creg_bit (data c) i).

(** All basis indices of an [n]-qubit register. *)
Definition basis (n : Z) : list N :=
  map N.of_nat (seq 0 (2 ^ Z.to_nat n)%nat).

Definition Rsum (l : list R) : R := fold_right Rplus 0%R l.

(** The probability that a shot is tallied under [key]. *)
Definition prob (c : QuantumCircuit) (key : string) : R :=
  Rsum (map (fun i => if String.eqb (outcome c i) key
                      then born (evolve (data c)) i else 0%R)
            (basis (num_qubits c))).

(** One more occurrence of [key]. *)
Definition tally (key : string) (counts : gmap string Z) : gmap string Z :=
  <[key := default 0 (counts !! key) + 1]> counts.

Definition total (counts : gmap string Z) : Z :=
  map_fold (fun _ v acc => v + acc) 0 counts.

(** The random source: [rng s] is the basis index drawn at shot [s].  It
    is a draw from the Born distribution of [c] when every index it gives
    is in range and has positive probability. *)
Definition born_draws (c : QuantumCircuit) (rng : nat -> N) : Prop :=
  forall s, (rng s < 2 ^ Z.to_N (num_qubits c))%N /\
            (0 < born (evolve (data c)) (rng s))%R.

(** Modelled from the spec: the Sampler (section 4.4), which the
    repository takes from the backend: one draw and one tally per shot. *)
Definition sample (c : QuantumCircuit) (shots : Z) (rng : nat -> N)
  : gmap string Z :=
  fold_left (fun counts s => tally (outcome c (rng s)) counts)
            (seq 0 (Z.to_nat shots)) ∅.

(** A negative shot count is refused inside the backend's [run] with a
    [TypeError] (the count is an unsigned integer there), before any
    result exists.  A circuit without measurements, or a run of 0 shots,
    makes no draw and leaves no counts in the result, and the library's
    [get_counts] raises its [QiskitError]. *)
Definition run_get_counts (c : QuantumCircuit) (shots : Z) (rng : nat -> N)
  : exception + gmap string Z :=
  if shots <? 0 then inl TypeError
  else if negb (existsb is_measure (data c)) then inl QiskitError
  else if shots =? 0 then inl QiskitError
  else inr (sample c shots rng).

End Aer.

(** ** [pyquant.QuantumSimulator] *)

Record QuantumSimulator : Type := mkSim {
  sim_num_qubits : Z;
  circuit : QuantumCircuit
}.

(** Run a circuit method on [self.circuit]. *)
Definition on_circuit {A} (m : M QuantumCircuit A) : M QuantumSimulator A :=
  fun self => match m (circuit self) with
              | (r, c') => (r, mkSim (sim_num_qubits self) c')
              end.

Module QuantumSimulator.

Definition __init__ (num_qubits : Z) : exception + QuantumSimulator :=
  match Qiskit.new num_qubits num_qubits with
  | inr c => inr (mkSim num_qubits c)
  | inl e => inl e
  end.

Definition apply_hadamard (qubit : Z) : M QuantumSimulator QuantumSimulator :=
  on_circuit (h qubit) ;;; ret_self.

Definition apply_cnot (control_qubit target_qubit : Z)
  : M QuantumSimulator QuantumSimulator :=
  on_circuit (cx control_qubit target_qubit) ;;; ret_self.

Definition apply_phase (qubit : Z) (angle : R)
  : M QuantumSimulator QuantumSimulator :=
  on_circuit (rz angle qubit) ;;; ret_self.

Definition measure_qubit (qubit classical_bit : Z)
  : M QuantumSimulator QuantumSimulator :=
  on_circuit (measure qubit classical_bit) ;;; ret_self.

Definition measure_all : M QuantumSimulator QuantumSimulator :=
  (self <- ret_self ;;
   for_each (range (sim_num_qubits self))
            (fun i => on_circuit (measure i i))) ;;;
  ret_self.

(** [run(self, shots=1000)]: [rng] is the backend's random source. *)
Definition run (shots : Z) (rng : nat -> N)
  : M QuantumSimulator (gmap string Z) :=
  fun self => (Aer.run_get_counts (circuit self) shots rng, self).

Definition create_bell_pair : M QuantumSimulator QuantumSimulator :=
  apply_hadamard 0 ;;;
  apply_cnot 0 1 ;;;
  ret_self.

(** [state_to_teleport] is the pair [[a, b]]. *)
Definition quantum_teleportation (state_to_teleport : R * R)
  : M QuantumSimulator QuantumSimulator :=
  (if Req_dec_T (fst state_to_teleport) 0%R then ret tt
   else on_circuit (x 0)) ;;;
  (if Req_dec_T (snd state_to_teleport) 0%R then ret tt
   else on_circuit (rz (snd state_to_teleport) 0)) ;;;
  on_circuit (h 1) ;;;
  on_circuit (cx 1 2) ;;;
  on_circuit (cx 0 1) ;;;
  on_circuit (h 0) ;;;
  on_circuit (measure_list [0; 1] [0; 1]) ;;;
  ret_self.

End QuantumSimulator.



(** ** [quantum_token_processor.QuantumTokenProcessor]

    The tokenizer, the login and the logging are outside the model; the
    state is [n_qubits] and [quantum_sim]. *)

Record QuantumTokenProcessor : Type := mkProc {
  n_qubits : Z;
  quantum_sim : QuantumSimulator
}.

(** Run a simulator method on [self.quantum_sim]. *)
Definition on_sim {A} (m : M QuantumSimulator A) : M QuantumTokenProcessor A :=
  fun self => match m (quantum_sim self) with
              | (r, s') => (r, mkProc (n_qubits self) s')
              end.

Module QuantumTokenProcessor.

Import QuantumSimulator.

(** [hf_token] is what [os.getenv("HUGGINGFACE_TOKEN")] gives, [None] or
    the empty string being the values Python takes as false.  [loading]
    is what the login and the tokenizer download do: [Some e] when one of
    them raises [e], which is logged and raised again.  The simulator is
    built last. *)
Definition __init__ (hf_token : option string) (loading : option exception)
    (n_qubits : Z) : exception + QuantumTokenProcessor :=
  match hf_token with
  | None | Some EmptyString => inl ValueError
  | Some _ =>
      match loading with
      | Some e => inl e
      | None =>
          match QuantumSimulator.__init__ n_qubits with
          | inr s => inr (mkProc n_qubits s)
          | inl e => inl e
          end
      end
  end.

(** For [n_qubits >= 0] the powers of two are integers, as in Python.
    (Below 0 no processor can be built: [__init__] raises.)  The angle
    is computed in doubles by the code and is a real number here: the
    quotient by [2^n] is exact in doubles as long as the residue has at
    most 53 bits, so the two agree on which residues get equal angles for
    [n_qubits <= 52]. *)
Definition _amplitude_encoding (token_id : Z) : M QuantumTokenProcessor unit :=
  self <- ret_self ;;
  let normalized_value :=
    (IZR (token_id mod 2 ^ n_qubits self) / IZR (2 ^ n_qubits self))%R in
  let angle := (normalized_value * PI)%R in
  on_sim (on_circuit (ry angle 0)) ;;;
  for_each (range (n_qubits self - 1))
           (fun i => on_sim (apply_cnot i (i + 1)) ;;; ret tt).

(** The phase is a real number here and a double in the code, with the
    same agreement up to [n_qubits <= 52] as for the amplitude angle. *)
Definition _phase_encoding (token_id : Z) : M QuantumTokenProcessor unit :=
  self <- ret_self ;;
  for_each (range (n_qubits self)) (fun i => on_sim (on_circuit (h i))) ;;;
  let normalized_phase :=
    (IZR (token_id mod 2 ^ n_qubits self) / IZR (2 ^ n_qubits self)
     * 2 * PI)%R in
  on_sim (on_circuit (rz normalized_phase 0)) ;;;
  for_each (range (n_qubits self - 1))
           (fun i => on_sim (apply_cnot i (i + 1)) ;;; ret tt).

(** With [n_qubits = 0] the code's [2**(n-1)] is the double 0.5 and the
    token is converted to a double, which raises [OverflowError] for a
    token beyond the range of doubles (magnitude about [2^1024]).  The
    model covers the tokens within that range: for them every path ends
    in the [CircuitError] of the first gate, as here. *)
Definition _hybrid_encoding (token_id : Z) : M QuantumTokenProcessor unit :=
  self <- ret_self ;;
  let amplitude_part := token_id mod 2 ^ (n_qubits self - 1) in
  let phase_part := token_id / 2 ^ (n_qubits self - 1) in
  _amplitude_encoding amplitude_part ;;;
  _phase_encoding phase_part.

(** [initialize_quantum_schemes]: the dictionary of encoders. *)
Definition encoding_schemes
  : gmap string (Z -> M QuantumTokenProcessor unit) :=
  {[ "amplitude"%string := _amplitude_encoding;
     "phase"%string := _phase_encoding;
     "hybrid"%string := _hybrid_encoding ]}.

(** [self.quantum_sim = QuantumSimulator(self.n_qubits)] *)
Definition reset_sim : M QuantumTokenProcessor unit :=
  fun self => match QuantumSimulator.__init__ (n_qubits self) with
              | inr s => (inr tt, mkProc (n_qubits self) s)
              | inl e => (inl e, self)
              end.

Definition process_token (token_id : Z) (scheme : string) (rng : nat -> N)
  : M QuantumTokenProcessor (gmap string Q) :=
  reset_sim ;;;
  let encoding_func :=
    default _hybrid_encoding (encoding_schemes !! scheme) in
  encoding_func token_id ;;;
  on_sim measure_all ;;;
  results <- on_sim (run 1000 rng) ;;
  let prob_dist := (fun v => Qmake v 1000) <$> results in
  ret prob_dist.

(** [process_text]: [tokens] is what [self.tokenizer.encode(text)] gave;
    the progress bar is outside the model.  [rngs k] is the random source
    of the run made for the token at position [k]. *)
Fixpoint process_tokens (tokens : list Z) (scheme : string)
    (rngs : nat -> nat -> N) (k : nat) (quantum_embeddings : list (gmap string Q))
  : M QuantumTokenProcessor (list (gmap string Q)) :=
  match tokens with
  | [] => ret quantum_embeddings
  | token :: rest =>
      d <- process_token token scheme (rngs k) ;;
      process_tokens rest scheme rngs (S k) (quantum_embeddings ++ [d])
  end.

Definition process_text (tokens : list Z) (scheme : string)
    (rngs : nat -> nat -> N)
  : M QuantumTokenProcessor (list (gmap string Q)) :=
  process_tokens tokens scheme rngs 0%nat [].

End QuantumTokenProcessor.

(** ** [examples.py] and [test_install.py]

    The console output is outside the model; what is kept is the circuit
    each demonstration builds, the histogram it returns and the numbers
    of its statistics table. *)

Module Examples.

Import QuantumSimulator.

Definition demonstrate_bell_pair (rng : nat -> N)
  : exception + gmap string Z :=
  match QuantumSimulator.__init__ 2 with
  | inl e => inl e
  | inr sim => ((create_bell_pair ;;; measure_all ;;; run 1000 rng) sim).1
  end.

(** ["Total Measurements"]: [sum(results.values())]. *)
Definition total_measurements (results : gmap string Z) : Z :=
  map_fold (fun _ v acc => v + acc) 0 results.

(** ["Unique States"]: [len(results)]. *)
Definition unique_states (results : gmap string Z) : nat := size results.

(** ["Fidelity"]:
    [(results.get('00', 0) + results.get('11', 0)) / 1000]. *)
Definition fidelity (results : gmap string Z) : Q :=
  Qmake (default 0 (results !! "00"%string) +
         default 0 (results !! "11"%string)) 1000.

Definition demonstrate_teleportation (rng : nat -> N)
  : exception + gmap string Z :=
  match QuantumSimulator.__init__ 3 with
  | inl e => inl e
  | inr sim =>
      let state_to_teleport := (1%R, (1 / 2)%R) in
      ((quantum_teleportation state_to_teleport ;;; run 1000 rng) sim).1
  end.

End Examples.

Module TestInstall.

(** [test_installation]: a circuit built and run without the wrapper
    class. *)
Definition test_installation (rng : nat -> N) : exception + gmap string Z :=
  match Qiskit.new 1 1 with
  | inl e => inl e
  | inr qc =>
      match (h 0 ;;; measure 0 0) qc with
      | (inl e, _) => inl e
      | (inr _, qc') => Aer.run_get_counts qc' 1000 rng
      end
  end.

End TestInstall.

(** ** Appending to the instruction log *)

Definition extend_circuit (gs : list Instruction) (c : QuantumCircuit)
  : QuantumCircuit :=
  mkCircuit (num_qubits c) (num_clbits c) (data c ++ gs).

Definition extend_sim (gs : list Instruction) (s : QuantumSimulator)
  : QuantumSimulator :=
  mkSim (sim_num_qubits s) (extend_circuit gs (circuit s)).

Definition extend_proc (gs : list Instruction) (p : QuantumTokenProcessor)
  : QuantumTokenProcessor :=
  mkProc (n_qubits p) (extend_sim gs (quantum_sim p)).

(** A simulator as [__init__] makes it and every method keeps it: both
    registers of the circuit have [num_qubits] bits. *)
Definition sim_wf (s : QuantumSimulator) : Prop :=
  num_qubits (circuit s) = sim_num_qubits s /\
  num_clbits (circuit s) = sim_num_qubits s.

Definition proc_wf (p : QuantumTokenProcessor) : Prop :=
  sim_wf (quantum_sim p) /\ sim_num_qubits (quantum_sim p) = n_qubits p.

(** The gate lists the specification describes. *)
Definition cnot_chain (n : Z) : list Instruction :=
  map (fun i => CXGate i (i + 1)) (range (n - 1)).

Definition spec_amplitude_gates (n token_id : Z) : list Instruction :=
  RYGate (IZR (token_id mod 2 ^ n) / IZR (2 ^ n) * PI)%R 0 :: cnot_chain n.

Definition spec_phase_gates (n token_id : Z) : list Instruction :=
  map HGate (range n) ++
  RZGate (IZR (token_id mod 2 ^ n) / IZR (2 ^ n) * (2 * PI))%R 0 ::
  cnot_chain n.

Definition spec_teleport_gates (a b : R) : list Instruction :=
  (if Req_dec_T a 0%R then [] else [XGate 0]) ++
  (if Req_dec_T b 0%R then [] else [RZGate b 0]) ++
  [HGate 1; CXGate 1 2; CXGate 0 1; HGate 0; Measure 0 0; Measure 1 1].

Definition acts_on (q : Z) (g : Instruction) : bool :=
  match g with
  | HGate a | XGate a | RZGate _ a | RYGate _ a | Measure a _ => a =? q
  | CXGate c t => (c =? q) || (t =? q)
  end.

(** What follows the first measurement of an instruction list. *)
Fixpoint after_first_measure (l : list Instruction) : list Instruction :=
  match l with
  | [] => []
  | g :: l' => if is_measure g then l' else after_first_measure l'
  end.

(** ** Auxiliary definitions for the statements *)

Definition fresh_processor (n : Z) : QuantumTokenProcessor :=
  mkProc n (mkSim n (mkCircuit n n [])).

(** A new processor whose circuit holds the gates [gs]. *)
Definition fresh_processor_with (n : Z) (gs : list Instruction)
  : QuantumTokenProcessor :=
  mkProc n (mkSim n (mkCircuit n n gs)).

(** The state after the calls of a history, whatever each call returned
    or raised. *)
Definition process_history
    (calls : list (Z * string * (nat -> N))) (p : QuantumTokenProcessor)
  : QuantumTokenProcessor :=
  fold_left (fun p call =>
               (QuantumTokenProcessor.process_token
                  call.1.1 call.1.2 call.2 p).2) calls p.

Definition keeps_n_qubits {A} (m : M QuantumTokenProcessor A) : Prop :=
  forall p, n_qubits (m p).2 = n_qubits p.

(** Tallying the shots of [l], shot [s] under key [key_of s]. *)
Definition tally_all (key_of : nat -> string) (l : list nat)
    (acc : gmap string Z) : gmap string Z :=
  fold_left (fun counts s => Aer.tally (key_of s) counts) l acc.

(** The amplitude [1/sqrt 2]. *)
Definition bell_amp : Aer.C := (/ sqrt 2, 0)%R.

Definition measure_everything (n : Z) : list Instruction :=
  map (fun i => Measure i i) (range n).

(** The circuit of [examples.demonstrate_bell_pair] on [n] qubits:
    [create_bell_pair] then [measure_all] on a new simulator. *)
Definition bell_circuit (n : Z) : QuantumCircuit :=
  mkCircuit n n ([HGate 0; CXGate 0 1] ++ measure_everything n).

(** [examples.demonstrate_bell_pair] up to [run], for any qubit count and
    shot count (the example fixes 2 and 1000). *)
Definition bell_pair_histogram (n shots : Z) (rng : nat -> N)
  : exception + gmap string Z :=
  match QuantumSimulator.__init__ n with
  | inl e => inl e
  | inr sim =>
      ((QuantumSimulator.create_bell_pair ;;;
        QuantumSimulator.measure_all ;;;
        QuantumSimulator.run shots rng) sim).1
  end.

(** The [n]-character keys of the two Bell outcomes: all bits 0, and bits
    0 and 1 set. *)
Definition key00 (n : Z) : string :=
  Aer.bitstring (Z.to_nat n) (fun _ => false).

Definition key11 (n : Z) : string :=
  Aer.bitstring (Z.to_nat n) (fun c => c <? 2).

(** ** Auxiliary definitions for the further properties *)

(** An instruction whose operands are bits of the registers. *)
Definition instr_ok (nq nc : Z) (g : Instruction) : bool :=
  match g with
  | HGate q | XGate q | RZGate _ q | RYGate _ q => (0 <=? q) && (q <? nq)
  | CXGate c t =>
      (0 <=? c) && (c <? nq) && (0 <=? t) && (t <? nq) && negb (c =? t)
  | Measure q c => (0 <=? q) && (q <? nq) && (0 <=? c) && (c <? nc)
  end.

Definition circuit_ok (c : QuantumCircuit) : bool :=
  forallb (instr_ok (num_qubits c) (num_clbits c)) (data c).

(** A call of one of the methods of [QuantumSimulator], and the state it
    leaves, whether it returns or raises. *)
Inductive call : Type :=
| ApplyHadamard (qubit : Z)
| ApplyCnot (control_qubit target_qubit : Z)
| ApplyPhase (qubit : Z) (angle : R)
| MeasureQubit (qubit classical_bit : Z)
| MeasureAll
| Run (shots : Z) (rng : nat -> N)
| CreateBellPair
| QuantumTeleportation (state_to_teleport : R * R).

Definition invoke (c : call) (s : QuantumSimulator) : QuantumSimulator :=
  match c with
  | ApplyHadamard q => (QuantumSimulator.apply_hadamard q s).2
  | ApplyCnot c t => (QuantumSimulator.apply_cnot c t s).2
  | ApplyPhase q a => (QuantumSimulator.apply_phase q a s).2
  | MeasureQubit q c => (QuantumSimulator.measure_qubit q c s).2
  | MeasureAll => (QuantumSimulator.measure_all s).2
  | Run shots rng => (QuantumSimulator.run shots rng s).2
  | CreateBellPair => (QuantumSimulator.create_bell_pair s).2
  | QuantumTeleportation st => (QuantumSimulator.quantum_teleportation st s).2
  end.

Definition invoke_all (cs : list call) (s : QuantumSimulator)
  : QuantumSimulator :=
  fold_left (fun s c => invoke c s) cs s.

(** The gates [process_token] puts before the measurements. *)
Definition scheme_gates (n : Z) (scheme : string) (token_id : Z)
  : list Instruction :=
  if decide (scheme = "amplitude"%string)
  then spec_amplitude_gates n token_id
  else if decide (scheme = "phase"%string)
       then spec_phase_gates n token_id
       else spec_amplitude_gates n (token_id mod 2 ^ (n - 1)) ++
            spec_phase_gates n (token_id / 2 ^ (n - 1)).

(** The sum of the values of a distribution. *)
Definition Qtotal (dist : gmap string Q) : Q :=
  map_fold (fun _ v acc => Qplus v acc) 0%Q dist.

(** A key read as a binary numeral, leftmost character most
    significant. *)
Fixpoint parse_binary_from (acc : N) (key : string) : N :=
  match key with
  | EmptyString => acc
  | String ch rest =>
      parse_binary_from (2 * acc + (if Ascii.eqb ch "1"%char then 1 else 0))%N
                        rest
  end.

Definition parse_binary (key : string) : N := parse_binary_from 0%N key.

(** The basis indices the teleportation circuit can leave: with qubit 0
    prepared as 1 the pair (qubit 1, qubit 2) ends unequal, otherwise
    equal. *)
Definition teleport_support (a : R) (i : N) : bool :=
  if Req_dec_T a 0%R
  then ((i =? 0) || (i =? 1) || (i =? 6) || (i =? 7))%N
  else ((i =? 2) || (i =? 3) || (i =? 4) || (i =? 5))%N.

Definition teleport_keys : list string :=
  ["000"; "001"; "010"; "011"]%string.

(** An index that is no bit of a register of [size] bits, counted from
    either end. *)
Definition out_of_range (size idx : Z) : Prop :=
  idx < - size \/ size <= idx.

(** The distribution [process_token] derives from the histogram of the
    circuit of a token. *)
Definition token_distribution (n : Z) (scheme : string) (token_id : Z)
    (rng : nat -> N) : gmap string Q :=
  (fun v => Qmake v 1000) <$>
  Aer.sample (mkCircuit n n (scheme_gates n scheme token_id ++
                             measure_everything n))
             1000 rng.

(** [examples.demonstrate_teleportation] up to [run], for any state and
    shot count (the example fixes [[1, 0.5]] and 1000). *)
Definition teleport_histogram (a b : R) (shots : Z) (rng : nat -> N)
  : exception + gmap string Z :=
  match QuantumSimulator.__init__ 3 with
  | inl e => inl e
  | inr sim =>
      ((QuantumSimulator.quantum_teleportation (a, b) ;;;
        QuantumSimulator.run shots rng) sim).1
  end.

Definition teleport_circuit (a b : R) : QuantumCircuit :=
  mkCircuit 3 3 (spec_teleport_gates a b).

(** The circuit [test_installation] runs. *)
Definition hadamard_circuit : QuantumCircuit :=
  mkCircuit 1 1 [HGate 0; Measure 0 0].

(** A computation that only appends to the log, and only instructions
    whose operands are in the registers; [ext] appends to the log of a
    state, [nq] and [nc] read its register sizes. *)
Definition appends_valid {S A} (ext : list Instruction -> S -> S)
    (nq nc : S -> Z) (m : M S A) : Prop :=
  forall s, exists gs,
    (m s).2 = ext gs s /\ forallb (instr_ok (nq s) (nc s)) gs = true.

Abbreviation circuit_appends :=
  (appends_valid extend_circuit num_qubits num_clbits).
Abbreviation sim_appends :=
  (appends_valid extend_sim (fun s => num_qubits (circuit s))
                 (fun s => num_clbits (circuit s))).
Abbreviation proc_appends :=
  (appends_valid extend_proc
                 (fun p => num_qubits (circuit (quantum_sim p)))
                 (fun p => num_clbits (circuit (quantum_sim p)))).


(** * Properties *)

Lemma extend_circuit_nil c : extend_circuit [] c = c.
Proof. destruct c; unfold extend_circuit; simpl. by rewrite app_nil_r. Qed.

Lemma extend_sim_nil s : extend_sim [] s = s.
Proof. destruct s; unfold extend_sim; simpl. by rewrite extend_circuit_nil. Qed.

Lemma extend_proc_nil p : extend_proc [] p = p.
Proof. destruct p; unfold extend_proc; simpl. by rewrite extend_sim_nil. Qed.

Lemma extend_sim_app gs1 gs2 s :
  extend_sim gs2 (extend_sim gs1 s) = extend_sim (gs1 ++ gs2) s.
Proof. unfold extend_sim, extend_circuit; simpl. by rewrite app_assoc. Qed.

Lemma extend_proc_app gs1 gs2 p :
  extend_proc gs2 (extend_proc gs1 p) = extend_proc (gs1 ++ gs2) p.
Proof. unfold extend_proc; simpl. by rewrite extend_sim_app. Qed.

Lemma sim_wf_extend gs s : sim_wf s -> sim_wf (extend_sim gs s).
Proof. by intros [? ?]. Qed.

Lemma proc_wf_extend gs p : proc_wf p -> proc_wf (extend_proc gs p).
Proof. intros [? ?]; split; [by apply sim_wf_extend | done]. Qed.

Lemma resolve_in_range size idx :
  0 <= idx < size -> resolve size idx = inr idx.
Proof.
  intros Hi. unfold resolve.
  destruct (Z.leb_spec 0 idx), (Z.ltb_spec idx size); simpl; try lia; done.
Qed.

Lemma range_bounds n i : In i (range n) -> 0 <= i < n.
Proof.
  unfold range. rewrite in_map_iff. intros (k & <- & Hk).
  apply in_seq in Hk. lia.
Qed.

Lemma range_length n : length (range n) = Z.to_nat n.
Proof. unfold range. by rewrite length_map, length_seq. Qed.

Lemma range_lookup n (k : nat) :
  (k < Z.to_nat n)%nat -> range n !! k = Some (Z.of_nat k).
Proof.
  intros Hk. unfold range. rewrite list_lookup_fmap.
  rewrite lookup_seq_lt by done. done.
Qed.

(** *** Single instructions on a simulator *)

Section SimGates.
Variable s : QuantumSimulator.
Hypothesis Hwf : sim_wf s.

Lemma sim_resolve_q q :
  0 <= q < sim_num_qubits s -> resolve (num_qubits (circuit s)) q = inr q.
Proof. intros Hq. apply resolve_in_range. destruct Hwf as [-> _]. done. Qed.

Lemma sim_resolve_c c :
  0 <= c < sim_num_qubits s -> resolve (num_clbits (circuit s)) c = inr c.
Proof. intros Hc. apply resolve_in_range. destruct Hwf as [_ ->]. done. Qed.

Lemma sim_h q :
  0 <= q < sim_num_qubits s ->
  on_circuit (h q) s = (inr tt, extend_sim [HGate q] s).
Proof.
  intros Hq. unfold on_circuit, h, bind, qarg, append.
  by rewrite sim_resolve_q.
Qed.

Lemma sim_x q :
  0 <= q < sim_num_qubits s ->
  on_circuit (x q) s = (inr tt, extend_sim [XGate q] s).
Proof.
  intros Hq. unfold on_circuit, x, bind, qarg, append.
  by rewrite sim_resolve_q.
Qed.

Lemma sim_rz phi q :
  0 <= q < sim_num_qubits s ->
  on_circuit (rz phi q) s = (inr tt, extend_sim [RZGate phi q] s).
Proof.
  intros Hq. unfold on_circuit, rz, bind, qarg, append.
  by rewrite sim_resolve_q.
Qed.

Lemma sim_ry theta q :
  0 <= q < sim_num_qubits s ->
  on_circuit (ry theta q) s = (inr tt, extend_sim [RYGate theta q] s).
Proof.
  intros Hq. unfold on_circuit, ry, bind, qarg, append.
  by rewrite sim_resolve_q.
Qed.

Lemma sim_cx c t :
  0 <= c < sim_num_qubits s -> 0 <= t < sim_num_qubits s -> c <> t ->
  on_circuit (cx c t) s = (inr tt, extend_sim [CXGate c t] s).
Proof.
  intros Hc Ht Hne. unfold on_circuit, cx, bind, qarg, append.
  rewrite !sim_resolve_q by done.
  destruct (Z.eqb_spec c t); [lia | done].
Qed.

Lemma sim_measure q c :
  0 <= q < sim_num_qubits s -> 0 <= c < sim_num_qubits s ->
  on_circuit (measure q c) s = (inr tt, extend_sim [Measure q c] s).
Proof.
  intros Hq Hc. unfold on_circuit, measure, bind, qarg, carg, append.
  by rewrite sim_resolve_q, sim_resolve_c.
Qed.
End SimGates.

(** *** Loops that append one instruction per element *)

Lemma for_each_sim {A} (g : A -> Instruction) (body : A -> M QuantumSimulator unit)
    (l : list A) (n : Z) :
  (forall a s, In a l -> sim_wf s -> sim_num_qubits s = n ->
               body a s = (inr tt, extend_sim [g a] s)) ->
  forall s, sim_wf s -> sim_num_qubits s = n ->
            for_each l body s = (inr tt, extend_sim (map g l) s).
Proof.
  induction l as [|a l IH]; intros Hbody s Hwf Hn; simpl.
  - by rewrite extend_sim_nil.
  - unfold bind. rewrite Hbody by (done || by left).
    rewrite IH; [| intros; apply Hbody; (done || by right)
                 | by apply sim_wf_extend | done].
    by rewrite extend_sim_app.
Qed.

Lemma for_each_proc {A} (g : A -> Instruction)
    (body : A -> M QuantumTokenProcessor unit) (l : list A) (n : Z) :
  (forall a p, In a l -> proc_wf p -> n_qubits p = n ->
               body a p = (inr tt, extend_proc [g a] p)) ->
  forall p, proc_wf p -> n_qubits p = n ->
            for_each l body p = (inr tt, extend_proc (map g l) p).
Proof.
  induction l as [|a l IH]; intros Hbody p Hwf Hn; simpl.
  - by rewrite extend_proc_nil.
  - unfold bind. rewrite Hbody by (done || by left).
    rewrite IH; [| intros; apply Hbody; (done || by right)
                 | by apply proc_wf_extend | done].
    by rewrite extend_proc_app.
Qed.

Lemma on_circuit_bind {A B} (m : M QuantumCircuit A)
    (k : A -> M QuantumCircuit B) s :
  on_circuit (bind m k) s = bind (on_circuit m) (fun a => on_circuit (k a)) s.
Proof.
  unfold on_circuit, bind. by destruct (m (circuit s)) as [[e|a] c'].
Qed.

Lemma on_sim_extend {A} (m : M QuantumSimulator A) (a : A) gs p :
  m (quantum_sim p) = (inr a, extend_sim gs (quantum_sim p)) ->
  on_sim m p = (inr a, extend_proc gs p).
Proof. intros Hm. unfold on_sim. by rewrite Hm. Qed.

Ltac sim_side :=
  solve [ repeat apply sim_wf_extend; assumption | simpl; lia ].

Ltac sim_step :=
  first [ rewrite sim_h by sim_side
        | rewrite sim_x by sim_side
        | rewrite sim_rz by sim_side
        | rewrite sim_ry by sim_side
        | rewrite sim_cx by sim_side
        | rewrite sim_measure by sim_side ];
  cbv beta iota; rewrite ?extend_sim_app.

Lemma apply_cnot_appends s c t :
  sim_wf s -> 0 <= c < sim_num_qubits s -> 0 <= t < sim_num_qubits s ->
  c <> t ->
  QuantumSimulator.apply_cnot c t s
  = (inr (extend_sim [CXGate c t] s), extend_sim [CXGate c t] s).
Proof.
  intros Hwf Hc Ht Hne. unfold QuantumSimulator.apply_cnot, bind.
  by sim_step.
Qed.

Lemma apply_hadamard_appends s q :
  sim_wf s -> 0 <= q < sim_num_qubits s ->
  QuantumSimulator.apply_hadamard q s
  = (inr (extend_sim [HGate q] s), extend_sim [HGate q] s).
Proof.
  intros Hwf Hq. unfold QuantumSimulator.apply_hadamard, bind.
  by sim_step.
Qed.

Lemma create_bell_pair_appends s :
  sim_wf s -> 2 <= sim_num_qubits s ->
  QuantumSimulator.create_bell_pair s
  = (inr (extend_sim [HGate 0; CXGate 0 1] s),
     extend_sim [HGate 0; CXGate 0 1] s).
Proof.
  intros Hwf Hn. unfold QuantumSimulator.create_bell_pair, bind.
  rewrite apply_hadamard_appends by (done || lia).
  rewrite apply_cnot_appends
    by (by apply sim_wf_extend || (simpl; lia) || done).
  by rewrite extend_sim_app.
Qed.

Lemma measure_all_appends s :
  sim_wf s ->
  QuantumSimulator.measure_all s
  = (inr (extend_sim (map (fun i => Measure i i) (range (sim_num_qubits s))) s),
     extend_sim (map (fun i => Measure i i) (range (sim_num_qubits s))) s).
Proof.
  intros Hwf. unfold QuantumSimulator.measure_all, bind, ret_self at 1.
  rewrite (for_each_sim (fun i => Measure i i) _ _ (sim_num_qubits s));
    [done | | done | done].
  intros i s' Hi Hwf' Hn'. apply range_bounds in Hi.
  apply sim_measure; (done || lia).
Qed.

Lemma cnot_chain_length n : length (cnot_chain n) = Z.to_nat (n - 1).
Proof. unfold cnot_chain. by rewrite length_map, range_length. Qed.

Lemma cnot_chain_lookup n (k : nat) :
  (k < Z.to_nat (n - 1))%nat ->
  cnot_chain n !! k = Some (CXGate (Z.of_nat k) (Z.of_nat k + 1)).
Proof.
  intros Hk. unfold cnot_chain.
  by rewrite list_lookup_fmap, range_lookup.
Qed.

Lemma cnot_loop_appends n p :
  proc_wf p -> n_qubits p = n ->
  for_each (range (n - 1))
           (fun i => on_sim (QuantumSimulator.apply_cnot i (i + 1)) ;;; ret tt) p
  = (inr tt, extend_proc (cnot_chain n) p).
Proof.
  intros Hwf Hp. unfold cnot_chain.
  apply (for_each_proc (fun i => CXGate i (i + 1)) _ _ n); [| done | done].
  intros i p' Hi [Hs Hn] Hn'. apply range_bounds in Hi.
  unfold bind.
  rewrite (on_sim_extend _ (extend_sim [CXGate i (i + 1)] (quantum_sim p'))
             [CXGate i (i + 1)]); [done |].
  apply apply_cnot_appends; (done || lia).
Qed.

Lemma hadamard_loop_appends n p :
  proc_wf p -> n_qubits p = n ->
  for_each (range n) (fun i => on_sim (on_circuit (h i))) p
  = (inr tt, extend_proc (map HGate (range n)) p).
Proof.
  intros Hwf Hp.
  apply (for_each_proc HGate _ _ n); [| done | done].
  intros i p' Hi [Hs Hn] Hn'. apply range_bounds in Hi.
  apply on_sim_extend, sim_h; (done || lia).
Qed.

Lemma amplitude_encoding_appends p token_id :
  proc_wf p -> 1 <= n_qubits p ->
  QuantumTokenProcessor._amplitude_encoding token_id p
  = (inr tt, extend_proc (spec_amplitude_gates (n_qubits p) token_id) p).
Proof.
  intros Hwf Hn. unfold QuantumTokenProcessor._amplitude_encoding.
  unfold bind at 1, ret_self at 1. unfold bind at 1.
  destruct Hwf as [Hs Hq].
  rewrite (on_sim_extend _ tt [RYGate _ 0]) by (apply sim_ry; (done || lia)).
  rewrite (cnot_loop_appends (n_qubits p))
    by (by apply proc_wf_extend || done).
  by rewrite extend_proc_app.
Qed.

Lemma phase_encoding_appends p token_id :
  proc_wf p -> 1 <= n_qubits p ->
  QuantumTokenProcessor._phase_encoding token_id p
  = (inr tt, extend_proc (spec_phase_gates (n_qubits p) token_id) p).
Proof.
  intros Hwf Hn. unfold QuantumTokenProcessor._phase_encoding.
  unfold bind at 1, ret_self at 1. unfold bind at 1.
  rewrite (hadamard_loop_appends (n_qubits p)) by done.
  unfold bind at 1.
  assert (Hwf' : proc_wf (extend_proc (map HGate (range (n_qubits p))) p))
    by (by apply proc_wf_extend).
  destruct Hwf' as [Hs Hq].
  rewrite (on_sim_extend _ tt [RZGate _ 0])
    by (apply sim_rz; [done | simpl in *; lia]).
  rewrite (cnot_loop_appends (n_qubits p))
    by (by repeat apply proc_wf_extend || done).
  rewrite !extend_proc_app. unfold spec_phase_gates. simpl.
  do 4 f_equal. by rewrite <- Rmult_assoc.
Qed.

(** *** Circuit construction *)

(** C10: on a simulator with [n] qubits, [measure_all] appends exactly the
    [n] measurements of qubit [i] into classical bit [i], for [i] from 0 to
    [n-1] in increasing order, appends nothing else, and returns the
    simulator itself (the value returned is the final state of [self]). *)
Theorem measure_all_identity_mapping (s : QuantumSimulator) :
  sim_wf s ->
  let appended := map (fun i => Measure i i) (range (sim_num_qubits s)) in
  QuantumSimulator.measure_all s
    = (inr (extend_sim appended s), extend_sim appended s) /\
  length appended = Z.to_nat (sim_num_qubits s) /\
  (forall k : nat, (k < Z.to_nat (sim_num_qubits s))%nat ->
     appended !! k = Some (Measure (Z.of_nat k) (Z.of_nat k))).
Proof.
  intros Hwf appended. split; [by apply measure_all_appends |].
  unfold appended. split.
  - by rewrite length_map, range_length.
  - intros k Hk. by rewrite list_lookup_fmap, range_lookup.
Qed.

Lemma measure_all_identity_mapping_witness :
  QuantumSimulator.measure_all (mkSim 3 (mkCircuit 3 3 [HGate 0]))
  = (inr (mkSim 3 (mkCircuit 3 3
            [HGate 0; Measure 0 0; Measure 1 1; Measure 2 2])),
     mkSim 3 (mkCircuit 3 3
            [HGate 0; Measure 0 0; Measure 1 1; Measure 2 2])).
Proof.
  assert (Hwf : sim_wf (mkSim 3 (mkCircuit 3 3 [HGate 0]))) by (by split).
  exact (proj1 (measure_all_identity_mapping _ Hwf)).
Defined.

(** C2: on a simulator with the three qubits the protocol assumes,
    [quantum_teleportation [a, b]] appends exactly: PauliX on qubit 0 if
    [a <> 0], RotationZ(b) on qubit 0 if [b <> 0], Hadamard on 1,
    ControlledX(1,2), ControlledX(0,1), Hadamard on 0, measure 0 into bit 0,
    measure 1 into bit 1.  After the first measurement only the second
    measurement follows, and the only instruction that touches qubit 2 is
    ControlledX(1,2): no correction is applied to qubit 2. *)
Theorem quantum_teleportation_gate_sequence (s : QuantumSimulator) (a b : R) :
  sim_wf s -> 3 <= sim_num_qubits s ->
  QuantumSimulator.quantum_teleportation (a, b) s
    = (inr (extend_sim (spec_teleport_gates a b) s),
       extend_sim (spec_teleport_gates a b) s) /\
  after_first_measure (spec_teleport_gates a b) = [Measure 1 1] /\
  filter (fun g => acts_on 2 g) (spec_teleport_gates a b) = [CXGate 1 2].
Proof.
  intros Hwf Hn. split.
  - unfold QuantumSimulator.quantum_teleportation, spec_teleport_gates.
    cbn [fst snd].
    assert (Hm : forall s', sim_wf s' -> 3 <= sim_num_qubits s' ->
              on_circuit (measure_list [0; 1] [0; 1]) s'
              = (inr tt, extend_sim [Measure 0 0; Measure 1 1] s')).
    { intros s' Hwf' Hn'. unfold measure_list. cbn [zip zip_with for_each fst snd].
      rewrite on_circuit_bind. unfold bind at 1.
      rewrite sim_measure by (done || lia). cbv beta iota.
      rewrite on_circuit_bind. unfold bind at 1.
      rewrite sim_measure by (by apply sim_wf_extend || (simpl; lia)).
      cbv beta iota. by rewrite extend_sim_app. }
    unfold bind.
    destruct (Req_dec_T a 0), (Req_dec_T b 0); unfold ret;
      repeat sim_step;
      (rewrite Hm by (by repeat apply sim_wf_extend || (simpl; lia)));
      cbv beta iota; rewrite ?extend_sim_app; done.
  - unfold spec_teleport_gates.
    destruct (Req_dec_T a 0), (Req_dec_T b 0); done.
Qed.

Lemma quantum_teleportation_gate_sequence_witness :
  QuantumSimulator.quantum_teleportation (0%R, 0%R) (mkSim 3 (mkCircuit 3 3 []))
  = (inr (extend_sim (spec_teleport_gates 0 0) (mkSim 3 (mkCircuit 3 3 []))),
     extend_sim (spec_teleport_gates 0 0) (mkSim 3 (mkCircuit 3 3 []))).
Proof.
  assert (Hwf : sim_wf (mkSim 3 (mkCircuit 3 3 []))) by (by split).
  assert (Hn : 3 <= sim_num_qubits (mkSim 3 (mkCircuit 3 3 []))) by (simpl; lia).
  exact (proj1 (quantum_teleportation_gate_sequence _ 0%R 0%R Hwf Hn)).
Defined.

(** *** Token encodings *)

Lemma normalized_in_unit_interval (x n : Z) :
  0 <= n -> (0 <= IZR (x mod 2 ^ n) / IZR (2 ^ n) < 1)%R.
Proof.
  intros Hn.
  assert (Hp : 0 < 2 ^ n) by (apply Z.pow_pos_nonneg; lia).
  pose proof (Z.mod_pos_bound x (2 ^ n) Hp) as [Hlo Hhi].
  assert (HpR : (0 < IZR (2 ^ n))%R) by (by apply IZR_lt).
  split.
  - apply Rmult_le_pos; [by apply IZR_le |].
    left. by apply Rinv_0_lt_compat.
  - apply (Rmult_lt_reg_r (IZR (2 ^ n))); [done |].
    unfold Rdiv. rewrite Rmult_assoc, Rinv_l, Rmult_1_r, Rmult_1_l by lra.
    by apply IZR_lt.
Qed.

(** C3: for every integer token and every processor with [n >= 1] qubits,
    the amplitude encoding appends exactly RotationY on qubit 0 with angle
    [((token mod 2^n) / 2^n) * pi], a value in [[0, pi)], followed by
    ControlledX(i, i+1) for [i = 0 .. n-2] in increasing order, and nothing
    else. *)
Theorem amplitude_encoding_gate_sequence
    (p : QuantumTokenProcessor) (token_id : Z) :
  proc_wf p -> 1 <= n_qubits p ->
  let n := n_qubits p in
  let angle := (IZR (token_id mod 2 ^ n) / IZR (2 ^ n) * PI)%R in
  QuantumTokenProcessor._amplitude_encoding token_id p
    = (inr tt, extend_proc (RYGate angle 0 :: cnot_chain n) p) /\
  (0 <= angle < PI)%R /\
  length (cnot_chain n) = Z.to_nat (n - 1) /\
  (forall k : nat, (k < Z.to_nat (n - 1))%nat ->
     cnot_chain n !! k = Some (CXGate (Z.of_nat k) (Z.of_nat k + 1))).
Proof.
  intros Hwf Hn n angle. split; [by apply amplitude_encoding_appends |].
  split; [| split; [apply cnot_chain_length | apply cnot_chain_lookup]].
  unfold angle.
  pose proof (normalized_in_unit_interval token_id n ltac:(lia)) as [Hlo Hhi].
  pose proof PI_RGT_0 as Hpi.
  split; [apply Rmult_le_pos; lra |].
  rewrite <- (Rmult_1_l PI) at 2. apply Rmult_lt_compat_r; lra.
Qed.

Lemma amplitude_encoding_gate_sequence_witness :
  QuantumTokenProcessor._amplitude_encoding 5
    (mkProc 3 (mkSim 3 (mkCircuit 3 3 [])))
  = (inr tt,
     mkProc 3 (mkSim 3 (mkCircuit 3 3
       [RYGate (IZR (5 mod 2 ^ 3) / IZR (2 ^ 3) * PI)%R 0;
        CXGate 0 1; CXGate 1 2]))).
Proof.
  assert (Hwf : proc_wf (mkProc 3 (mkSim 3 (mkCircuit 3 3 []))))
    by (by repeat split).
  assert (Hn : 1 <= n_qubits (mkProc 3 (mkSim 3 (mkCircuit 3 3 []))))
    by (simpl; lia).
  exact (proj1 (amplitude_encoding_gate_sequence _ 5 Hwf Hn)).
Defined.

Lemma hybrid_encoding_appends p token_id :
  proc_wf p -> 1 <= n_qubits p ->
  QuantumTokenProcessor._hybrid_encoding token_id p
  = (inr tt,
     extend_proc
       (spec_amplitude_gates (n_qubits p) (token_id mod 2 ^ (n_qubits p - 1)) ++
        spec_phase_gates (n_qubits p) (token_id / 2 ^ (n_qubits p - 1))) p).
Proof.
  intros Hwf Hn. unfold QuantumTokenProcessor._hybrid_encoding.
  unfold bind at 1, ret_self at 1. unfold bind.
  rewrite amplitude_encoding_appends by done.
  rewrite phase_encoding_appends by (by apply proc_wf_extend || done).
  by rewrite extend_proc_app.
Qed.

(** C4: for every integer token and every processor with [n >= 1] qubits,
    the hybrid encoding builds, on the one shared circuit, the gates of the
    amplitude encoding of [token mod 2^(n-1)] followed by the gates of the
    phase encoding of [token div 2^(n-1)] (Hadamard on every qubit,
    RotationZ on qubit 0 with angle [((part mod 2^n) / 2^n) * 2 pi], then
    ControlledX(i, i+1) for [i = 0 .. n-2]); it is the amplitude encoder
    followed by the phase encoder. *)
Theorem hybrid_encoding_is_amplitude_then_phase
    (p : QuantumTokenProcessor) (token_id : Z) :
  proc_wf p -> 1 <= n_qubits p ->
  let n := n_qubits p in
  let amplitude_part := token_id mod 2 ^ (n - 1) in
  let phase_part := token_id / 2 ^ (n - 1) in
  QuantumTokenProcessor._hybrid_encoding token_id p
    = (inr tt, extend_proc (spec_amplitude_gates n amplitude_part ++
                            spec_phase_gates n phase_part) p) /\
  QuantumTokenProcessor._hybrid_encoding token_id p
    = (QuantumTokenProcessor._amplitude_encoding amplitude_part ;;;
       QuantumTokenProcessor._phase_encoding phase_part) p.
Proof.
  intros Hwf Hn n amplitude_part phase_part. split; [| done].
  by apply hybrid_encoding_appends.
Qed.

Lemma hybrid_encoding_is_amplitude_then_phase_witness :
  QuantumTokenProcessor._hybrid_encoding 6
    (mkProc 2 (mkSim 2 (mkCircuit 2 2 [])))
  = (inr tt,
     mkProc 2 (mkSim 2 (mkCircuit 2 2
       [RYGate (IZR ((6 mod 2 ^ (2 - 1)) mod 2 ^ 2) / IZR (2 ^ 2) * PI)%R 0;
        CXGate 0 1;
        HGate 0; HGate 1;
        RZGate (IZR ((6 / 2 ^ (2 - 1)) mod 2 ^ 2) / IZR (2 ^ 2) * (2 * PI))%R 0;
        CXGate 0 1]))).
Proof.
  assert (Hwf : proc_wf (mkProc 2 (mkSim 2 (mkCircuit 2 2 []))))
    by (by repeat split).
  assert (Hn : 1 <= n_qubits (mkProc 2 (mkSim 2 (mkCircuit 2 2 []))))
    by (simpl; lia).
  exact (proj1 (hybrid_encoding_is_amplitude_then_phase _ 6 Hwf Hn)).
Defined.

(** *** Tallying shots *)

Lemma total_empty : Aer.total ∅ = 0.
Proof. unfold Aer.total. by rewrite map_fold_empty. Qed.

Lemma total_tally key (counts : gmap string Z) :
  Aer.total (Aer.tally key counts) = Aer.total counts + 1.
Proof.
  unfold Aer.total, Aer.tally.
  destruct (counts !! key) as [v|] eqn:Hk; simpl.
  - rewrite <- insert_delete_eq.
    rewrite map_fold_insert_L; [| intros; lia | by rewrite lookup_delete_eq].
    rewrite (map_fold_delete_L _ _ key v counts); [lia | intros; lia | done].
  - rewrite map_fold_insert_L; [lia | intros; lia | done].
Qed.

Lemma tally_positive key (counts : gmap string Z) :
  map_Forall (fun _ v => 0 < v) counts ->
  map_Forall (fun _ v => 0 < v) (Aer.tally key counts).
Proof.
  intros Hpos. unfold Aer.tally. apply map_Forall_insert_2; [| done].
  destruct (counts !! key) as [v|] eqn:Hk; simpl; [| lia].
  specialize (Hpos key v Hk). simpl in Hpos. lia.
Qed.

Section Tally.
Variable key_of : nat -> string.

Lemma tally_all_total l acc :
  Aer.total (tally_all key_of l acc) = Aer.total acc + Z.of_nat (length l).
Proof.
  revert acc. induction l as [|s l IH]; intros acc; simpl; [lia |].
  unfold tally_all in *. rewrite IH, total_tally. lia.
Qed.

Lemma tally_all_positive l acc :
  map_Forall (fun _ v => 0 < v) acc ->
  map_Forall (fun _ v => 0 < v) (tally_all key_of l acc).
Proof.
  revert acc. induction l as [|s l IH]; intros acc Hacc; simpl; [done |].
  apply IH. by apply tally_positive.
Qed.

Lemma tally_all_keys l acc key :
  is_Some (tally_all key_of l acc !! key) ->
  is_Some (acc !! key) \/ exists s, In s l /\ key = key_of s.
Proof.
  revert acc. induction l as [|s l IH]; intros acc; simpl; [by left |].
  intros Hk. destruct (IH _ Hk) as [Hacc | (s' & Hs' & ->)].
  - unfold Aer.tally in Hacc. destruct (decide (key_of s = key)) as [<-|Hne].
    + right. exists s. by split; [left |].
    + rewrite lookup_insert_ne in Hacc by done. by left.
  - right. exists s'. by split; [right |].
Qed.

Lemma tally_all_hit l acc s :
  In s l -> is_Some (tally_all key_of l acc !! key_of s).
Proof.
  revert acc. induction l as [|s' l IH]; intros acc; simpl; [done |].
  intros [-> | Hin]; [| by apply IH].
  assert (Hmono : forall l' acc', is_Some (acc' !! key_of s) ->
                    is_Some (tally_all key_of l' acc' !! key_of s)).
  { induction l' as [|s'' l' IH']; intros acc' Hacc'; simpl; [done |].
    apply IH'. unfold Aer.tally.
    destruct (decide (key_of s'' = key_of s)) as [->|Hne].
    - by rewrite lookup_insert_eq.
    - by rewrite lookup_insert_ne. }
  apply Hmono. unfold Aer.tally. by rewrite lookup_insert_eq.
Qed.
End Tally.

Lemma sample_is_tally_all c shots rng :
  Aer.sample c shots rng
  = tally_all (fun s => Aer.outcome c (rng s)) (seq 0 (Z.to_nat shots)) ∅.
Proof. done. Qed.

Lemma bitstring_length w bit : String.length (Aer.bitstring w bit) = w.
Proof. induction w as [|w IH]; simpl; [done | by rewrite IH]. Qed.

Lemma run_returns_counts s shots rng :
  existsb is_measure (data (circuit s)) = true -> 0 < shots ->
  QuantumSimulator.run shots rng s = (inr (Aer.sample (circuit s) shots rng), s).
Proof.
  intros Hm Hs. unfold QuantumSimulator.run, Aer.run_get_counts.
  rewrite Hm. simpl.
  destruct (Z.ltb_spec shots 0); [lia |].
  destruct (Z.eqb_spec shots 0); [lia | done].
Qed.

(** C5: for every circuit that holds a measurement and every shot count
    [shots >= 1], [run] returns a histogram whose counts are positive
    integers that sum to [shots] exactly and whose keys are bitstrings, one
    character per classical bit, each the outcome of one of the shots. *)
Theorem run_counts_sum_to_shots
    (s : QuantumSimulator) (shots : Z) (rng : nat -> N) :
  existsb is_measure (data (circuit s)) = true -> 0 < shots ->
  exists counts : gmap string Z,
    QuantumSimulator.run shots rng s = (inr counts, s) /\
    Aer.total counts = shots /\
    map_Forall (fun _ v => 0 < v) counts /\
    (forall key, is_Some (counts !! key) ->
       String.length key = Z.to_nat (num_clbits (circuit s)) /\
       exists k : nat, (k < Z.to_nat shots)%nat /\
                       key = Aer.outcome (circuit s) (rng k)).
Proof.
  intros Hm Hs. exists (Aer.sample (circuit s) shots rng).
  split; [by apply run_returns_counts |].
  rewrite sample_is_tally_all. split; [| split].
  - rewrite tally_all_total, total_empty, length_seq. lia.
  - apply tally_all_positive. apply map_Forall_empty.
  - intros key Hk. apply tally_all_keys in Hk as [Hk | (k & Hin & ->)].
    + rewrite lookup_empty in Hk. by destruct Hk.
    + split; [apply bitstring_length |].
      exists k. split; [| done]. apply in_seq in Hin. lia.
Qed.

Lemma run_counts_sum_to_shots_witness :
  exists counts : gmap string Z,
    QuantumSimulator.run 5 (fun _ => 0%N) (mkSim 1 (mkCircuit 1 1 [HGate 0; Measure 0 0]))
      = (inr counts, mkSim 1 (mkCircuit 1 1 [HGate 0; Measure 0 0])) /\
    Aer.total counts = 5.
Proof.
  destruct (run_counts_sum_to_shots
              (mkSim 1 (mkCircuit 1 1 [HGate 0; Measure 0 0])) 5 (fun _ => 0%N))
    as (counts & Hrun & Htot & _); [reflexivity | lia |].
  exists counts. by split.
Defined.

(** *** Configuration and shot-count errors *)

(** C7, as stated, fails: with [shots = 0] the call does not raise
    [InvalidShotCount]. *)
Lemma run_zero_shots_not_InvalidShotCount :
  ~ (forall (s : QuantumSimulator) (shots : Z) (rng : nat -> N),
       shots <= 0 -> (QuantumSimulator.run shots rng s).1 = inl InvalidShotCount).
Proof.
  intros Hclaim.
  specialize (Hclaim (mkSim 1 (mkCircuit 1 1 [HGate 0; Measure 0 0])) 0
                     (fun _ => 0%N) ltac:(lia)).
  discriminate Hclaim.
Qed.

(** C7, amended: for every shot count [shots <= 0], [run] fails rather
    than returning a histogram, but never with [InvalidShotCount]: [run]
    checks nothing itself, 0 shots leave no counts and [get_counts] raises
    the library's [QiskitError], and a negative count is refused inside
    the backend's [run] with a [TypeError].  The simulator is left as it
    was. *)
Theorem run_nonpositive_shots_library_error
    (s : QuantumSimulator) (shots : Z) (rng : nat -> N) :
  shots <= 0 ->
  QuantumSimulator.run shots rng s
    = (inl (if shots <? 0 then TypeError else QiskitError), s) /\
  (QuantumSimulator.run shots rng s).1 <> inl InvalidShotCount.
Proof.
  intros Hs.
  assert (Hrun : QuantumSimulator.run shots rng s
                 = (inl (if shots <? 0 then TypeError else QiskitError), s)).
  { unfold QuantumSimulator.run, Aer.run_get_counts.
    destruct (Z.ltb_spec shots 0); [done |].
    destruct (negb _); [done |].
    destruct (Z.eqb_spec shots 0); [done | lia]. }
  split; [done |]. rewrite Hrun. by destruct (shots <? 0).
Qed.

Lemma run_nonpositive_shots_library_error_witness :
  QuantumSimulator.run 0 (fun _ => 0%N)
    (mkSim 1 (mkCircuit 1 1 [HGate 0; Measure 0 0]))
  = (inl QiskitError, mkSim 1 (mkCircuit 1 1 [HGate 0; Measure 0 0])).
Proof.
  exact (proj1 (run_nonpositive_shots_library_error
                  (mkSim 1 (mkCircuit 1 1 [HGate 0; Measure 0 0])) 0
                  (fun _ => 0%N) ltac:(lia))).
Defined.

(** C8, as stated, fails: qubit count 0 is accepted. *)
Lemma init_zero_qubits_accepted :
  ~ (forall n : Z, n <= 0 ->
       QuantumSimulator.__init__ n = inl ConfigurationError).
Proof.
  intros Hclaim. specialize (Hclaim 0 ltac:(lia)). discriminate Hclaim.
Qed.

(** C8, amended: the constructor checks nothing itself and never raises
    [ConfigurationError].  Qubit count 0 gives a simulator with an empty
    circuit over no qubits; a negative count is refused by the circuit
    library's register constructor with its own [CircuitError]. *)
Theorem init_qubit_count_unchecked (n : Z) :
  QuantumSimulator.__init__ n
    = (if n <? 0 then inl CircuitError
       else inr (mkSim n (mkCircuit n n []))) /\
  QuantumSimulator.__init__ n <> inl ConfigurationError /\
  QuantumSimulator.__init__ 0 = inr (mkSim 0 (mkCircuit 0 0 [])).
Proof.
  assert (Hinit : QuantumSimulator.__init__ n
                  = if n <? 0 then inl CircuitError
                    else inr (mkSim n (mkCircuit n n []))).
  { unfold QuantumSimulator.__init__, Qiskit.new.
    by destruct (n <? 0). }
  split; [done |]. split; [| done].
  rewrite Hinit. by destruct (n <? 0).
Qed.

(** *** Processing a token *)

Lemma proc_wf_fresh n : proc_wf (fresh_processor n).
Proof. by repeat split. Qed.

Lemma reset_sim_fresh p :
  0 <= n_qubits p ->
  QuantumTokenProcessor.reset_sim p = (inr tt, fresh_processor (n_qubits p)).
Proof.
  intros Hn. unfold QuantumTokenProcessor.reset_sim,
    QuantumSimulator.__init__, Qiskit.new.
  destruct (Z.ltb_spec (n_qubits p) 0); [lia | done].
Qed.

Lemma keeps_ret {A} (a : A) : keeps_n_qubits (ret a).
Proof. done. Qed.

Lemma keeps_ret_self : keeps_n_qubits ret_self.
Proof. done. Qed.

Lemma keeps_on_sim {A} (m : M QuantumSimulator A) : keeps_n_qubits (on_sim m).
Proof. intros p. unfold on_sim. by destruct (m (quantum_sim p)). Qed.

Lemma keeps_reset_sim : keeps_n_qubits QuantumTokenProcessor.reset_sim.
Proof.
  intros p. unfold QuantumTokenProcessor.reset_sim.
  by destruct (QuantumSimulator.__init__ (n_qubits p)).
Qed.

Lemma keeps_bind {A B} (m : M QuantumTokenProcessor A)
    (k : A -> M QuantumTokenProcessor B) :
  keeps_n_qubits m -> (forall a, keeps_n_qubits (k a)) ->
  keeps_n_qubits (bind m k).
Proof.
  intros Hm Hk p. unfold bind. specialize (Hm p).
  destruct (m p) as [[e|a] p']; simpl in *; [done |].
  by rewrite Hk.
Qed.

Lemma keeps_for_each {A} (l : list A)
    (body : A -> M QuantumTokenProcessor unit) :
  (forall a, keeps_n_qubits (body a)) -> keeps_n_qubits (for_each l body).
Proof.
  intros Hbody. induction l as [|a l IH]; simpl; [apply keeps_ret |].
  apply keeps_bind; [apply Hbody | intros _; apply IH].
Qed.

Create HintDb keeps.
#[local] Hint Resolve keeps_ret keeps_ret_self keeps_on_sim keeps_reset_sim : keeps.
#[local] Hint Extern 2 (keeps_n_qubits (bind _ _)) =>
  apply keeps_bind; [| intros ?] : keeps.
#[local] Hint Extern 2 (keeps_n_qubits (for_each _ _)) =>
  apply keeps_for_each; intros ? : keeps.

Lemma keeps_amplitude t :
  keeps_n_qubits (QuantumTokenProcessor._amplitude_encoding t).
Proof. unfold QuantumTokenProcessor._amplitude_encoding. auto 10 with keeps. Qed.

Lemma keeps_phase t :
  keeps_n_qubits (QuantumTokenProcessor._phase_encoding t).
Proof. unfold QuantumTokenProcessor._phase_encoding. auto 10 with keeps. Qed.

Lemma keeps_hybrid t :
  keeps_n_qubits (QuantumTokenProcessor._hybrid_encoding t).
Proof.
  unfold QuantumTokenProcessor._hybrid_encoding.
  auto 10 using keeps_amplitude, keeps_phase with keeps.
Qed.

(** The dictionary lookup with its default. *)
Lemma encoding_dispatch scheme :
  default QuantumTokenProcessor._hybrid_encoding
          (QuantumTokenProcessor.encoding_schemes !! scheme)
  = if decide (scheme = "amplitude"%string)
    then QuantumTokenProcessor._amplitude_encoding
    else if decide (scheme = "phase"%string)
         then QuantumTokenProcessor._phase_encoding
         else QuantumTokenProcessor._hybrid_encoding.
Proof.
  unfold QuantumTokenProcessor.encoding_schemes.
  destruct (decide (scheme = "amplitude"%string)) as [->|Ha].
  { by rewrite lookup_insert_eq. }
  rewrite lookup_insert_ne by done.
  destruct (decide (scheme = "phase"%string)) as [->|Hp].
  { by rewrite lookup_insert_eq. }
  rewrite lookup_insert_ne by done.
  destruct (decide (scheme = "hybrid"%string)) as [->|Hh].
  { by rewrite lookup_singleton_eq. }
  by rewrite lookup_singleton_ne.
Qed.

Lemma keeps_process_token t scheme rng :
  keeps_n_qubits (QuantumTokenProcessor.process_token t scheme rng).
Proof.
  unfold QuantumTokenProcessor.process_token. rewrite encoding_dispatch.
  repeat case_decide;
    auto 10 using keeps_amplitude, keeps_phase, keeps_hybrid with keeps.
Qed.

Lemma process_history_n_qubits calls p :
  n_qubits (process_history calls p) = n_qubits p.
Proof.
  revert p. induction calls as [|call calls IH]; intros p; simpl; [done |].
  unfold process_history in *. rewrite IH. apply keeps_process_token.
Qed.

(** Sampling reads the circuit and leaves the processor as it is: the
    state after [process_token] is the state after its building steps. *)
Lemma process_token_final_state t scheme rng p :
  (QuantumTokenProcessor.process_token t scheme rng p).2
  = ((QuantumTokenProcessor.reset_sim ;;;
      default QuantumTokenProcessor._hybrid_encoding
              (QuantumTokenProcessor.encoding_schemes !! scheme) t ;;;
      on_sim QuantumSimulator.measure_all) p).2.
Proof.
  unfold QuantumTokenProcessor.process_token, bind.
  generalize (default QuantumTokenProcessor._hybrid_encoding
                (QuantumTokenProcessor.encoding_schemes !! scheme)).
  intros enc.
  destruct (QuantumTokenProcessor.reset_sim p) as [[e|[]] p1]; [done |].
  destruct (enc t p1) as [[e|[]] p2]; [done |].
  destruct (on_sim QuantumSimulator.measure_all p2) as [[e|s] p3]; [done |].
  unfold on_sim, QuantumSimulator.run, ret. destruct p3 as [n3 s3]. simpl.
  by destruct (Aer.run_get_counts _ _ _).
Qed.

Lemma measures_present n gs :
  1 <= n ->
  existsb is_measure (gs ++ map (fun i => Measure i i) (range n)) = true.
Proof.
  intros Hn. apply existsb_exists. exists (Measure 0 0). split; [| done].
  apply in_or_app. right. apply in_map_iff. exists 0. split; [done |].
  unfold range. apply in_map_iff. exists 0%nat. split; [done |].
  apply in_seq. lia.
Qed.

Lemma process_token_hybrid_succeeds t rng p :
  1 <= n_qubits p ->
  exists dist : gmap string Q,
    (QuantumTokenProcessor.process_token t "hybrid" rng p).1 = inr dist.
Proof.
  intros Hn. unfold QuantumTokenProcessor.process_token.
  rewrite encoding_dispatch.
  rewrite decide_False by done. rewrite decide_False by done.
  unfold bind. rewrite reset_sim_fresh by lia.
  rewrite hybrid_encoding_appends by (apply proc_wf_fresh || done).
  set (p1 := extend_proc _ _).
  assert (Hwf1 : proc_wf p1) by apply proc_wf_extend, proc_wf_fresh.
  destruct Hwf1 as [Hs1 Hq1].
  rewrite (on_sim_extend _ _ _ _ (measure_all_appends _ Hs1)).
  unfold on_sim. rewrite run_returns_counts; [by eexists | | lia].
  cbn [quantum_sim extend_proc extend_sim circuit extend_circuit data].
  apply measures_present. by rewrite Hq1.
Qed.

Lemma process_token_hybrid_result t rng p :
  1 <= n_qubits p ->
  QuantumTokenProcessor.process_token t "hybrid" rng p
  = (inr ((fun v => Qmake v 1000) <$>
          Aer.sample
            (mkCircuit (n_qubits p) (n_qubits p)
               ((spec_amplitude_gates (n_qubits p)
                   (t mod 2 ^ (n_qubits p - 1)) ++
                 spec_phase_gates (n_qubits p) (t / 2 ^ (n_qubits p - 1))) ++
                measure_everything (n_qubits p))) 1000 rng),
     mkProc (n_qubits p)
       (mkSim (n_qubits p)
          (mkCircuit (n_qubits p) (n_qubits p)
             ((spec_amplitude_gates (n_qubits p)
                 (t mod 2 ^ (n_qubits p - 1)) ++
               spec_phase_gates (n_qubits p) (t / 2 ^ (n_qubits p - 1))) ++
              measure_everything (n_qubits p))))).
Proof.
  intros Hn. unfold QuantumTokenProcessor.process_token.
  rewrite encoding_dispatch.
  rewrite decide_False by done. rewrite decide_False by done.
  unfold bind at 1. rewrite reset_sim_fresh by lia.
  unfold bind at 1.
  rewrite hybrid_encoding_appends by (apply proc_wf_fresh || done).
  set (p1 := extend_proc _ _).
  assert (Hwf1 : proc_wf p1) by apply proc_wf_extend, proc_wf_fresh.
  destruct Hwf1 as [Hs1 Hq1].
  unfold bind at 1.
  rewrite (on_sim_extend _ _ _ _ (measure_all_appends _ Hs1)).
  unfold bind, on_sim. rewrite run_returns_counts; [done | | lia].
  cbn [quantum_sim extend_proc extend_sim circuit extend_circuit data].
  apply measures_present. by rewrite Hq1.
Qed.

(** C6: for every scheme name other than "amplitude", "phase" and
    "hybrid", [process_token] does exactly what it does for "hybrid" on the
    same token (same result, same final state, for the same random draws).
    On a processor with [n >= 1] qubits it does not fail: the circuit it
    builds is the hybrid encoding of the token (the amplitude gates of
    [token mod 2^(n-1)], then the phase gates of [token div 2^(n-1)])
    followed by the [n] measurements, and what it returns is the
    distribution of the 1000 shots of that circuit. *)
Theorem process_token_unknown_scheme_is_hybrid
    (p : QuantumTokenProcessor) (token_id : Z) (scheme : string)
    (rng : nat -> N) :
  scheme <> "amplitude"%string -> scheme <> "phase"%string ->
  scheme <> "hybrid"%string ->
  QuantumTokenProcessor.process_token token_id scheme rng p
    = QuantumTokenProcessor.process_token token_id "hybrid" rng p /\
  (1 <= n_qubits p ->
   let n := n_qubits p in
   let hybrid_circuit :=
     mkCircuit n n
       ((spec_amplitude_gates n (token_id mod 2 ^ (n - 1)) ++
         spec_phase_gates n (token_id / 2 ^ (n - 1))) ++
        measure_everything n) in
   QuantumTokenProcessor.process_token token_id scheme rng p
   = (inr ((fun v => Qmake v 1000) <$> Aer.sample hybrid_circuit 1000 rng),
      mkProc n (mkSim n hybrid_circuit)) /\
   (QuantumTokenProcessor._hybrid_encoding token_id (fresh_processor n)).2
   = fresh_processor_with n
       (spec_amplitude_gates n (token_id mod 2 ^ (n - 1)) ++
        spec_phase_gates n (token_id / 2 ^ (n - 1)))).
Proof.
  intros Ha Hp Hh.
  assert (Heq : QuantumTokenProcessor.process_token token_id scheme rng p
                = QuantumTokenProcessor.process_token token_id "hybrid" rng p).
  { unfold QuantumTokenProcessor.process_token.
    rewrite !encoding_dispatch.
    by rewrite !decide_False by done. }
  split; [done |]. intros Hn n hybrid_circuit. split.
  - rewrite Heq. by apply process_token_hybrid_result.
  - by rewrite hybrid_encoding_appends by (apply proc_wf_fresh || done).
Qed.

Lemma process_token_unknown_scheme_is_hybrid_witness :
  QuantumTokenProcessor.process_token 7 "qft" (fun _ => 0%N) (fresh_processor 2)
  = QuantumTokenProcessor.process_token 7 "hybrid" (fun _ => 0%N)
      (fresh_processor 2) /\
  (QuantumTokenProcessor._hybrid_encoding 7 (fresh_processor 2)).2
  = fresh_processor_with 2
      (spec_amplitude_gates 2 (7 mod 2 ^ (2 - 1)) ++
       spec_phase_gates 2 (7 / 2 ^ (2 - 1))).
Proof.
  pose proof (process_token_unknown_scheme_is_hybrid
                (fresh_processor 2) 7 "qft" (fun _ => 0%N)
                ltac:(discriminate) ltac:(discriminate)
                ltac:(discriminate)) as [Heq Hbuilt].
  split; [exact Heq |].
  exact (proj2 (Hbuilt ltac:(simpl; lia))).
Defined.

(** C9: on a processor with a valid qubit count, the circuit that
    [process_token] builds for [(token, scheme)] is the same whatever the
    processor did before (any history of earlier calls, whether they
    returned or raised) and whatever the random draws: every call starts
    from a fresh simulator.  Two processors with the same qubit count end
    in the same state, so the Born-rule distribution of the built circuit
    depends on [(token, scheme, qubit count)] only. *)
Theorem process_token_circuit_independent_of_history
    (p1 p2 : QuantumTokenProcessor) (token_id : Z) (scheme : string)
    (rng1 rng2 : nat -> N) (calls : list (Z * string * (nat -> N))) :
  0 <= n_qubits p1 -> n_qubits p2 = n_qubits p1 ->
  let built1 :=
    (QuantumTokenProcessor.process_token token_id scheme rng1 p1).2 in
  let built2 :=
    (QuantumTokenProcessor.process_token token_id scheme rng2 p2).2 in
  let later :=
    (QuantumTokenProcessor.process_token token_id scheme rng2
       (process_history calls p1)).2 in
  circuit (quantum_sim built1) = circuit (quantum_sim built2) /\
  circuit (quantum_sim later) = circuit (quantum_sim built1) /\
  (forall key, Aer.prob (circuit (quantum_sim later)) key
               = Aer.prob (circuit (quantum_sim built1)) key).
Proof.
  intros Hn Heq built1 built2 later.
  assert (Hfresh : forall rng p, n_qubits p = n_qubits p1 ->
            (QuantumTokenProcessor.process_token token_id scheme rng p).2
            = ((default QuantumTokenProcessor._hybrid_encoding
                  (QuantumTokenProcessor.encoding_schemes !! scheme) token_id ;;;
                on_sim QuantumSimulator.measure_all)
                 (fresh_processor (n_qubits p1))).2).
  { intros rng p Hp. rewrite process_token_final_state.
    unfold bind at 1. rewrite reset_sim_fresh by lia. by rewrite Hp. }
  assert (H1 : later = built1).
  { unfold later, built1.
    rewrite (Hfresh rng2) by apply process_history_n_qubits.
    by rewrite (Hfresh rng1). }
  split; [| split].
  - unfold built1, built2. by rewrite (Hfresh rng1), (Hfresh rng2).
  - by rewrite H1.
  - intros key. by rewrite H1.
Qed.

Lemma process_token_circuit_independent_of_history_witness :
  circuit (quantum_sim
    (QuantumTokenProcessor.process_token 9 "phase" (fun _ => 0%N)
       (fresh_processor 2)).2)
  = circuit (quantum_sim
    (QuantumTokenProcessor.process_token 9 "phase" (fun _ => 3%N)
       (mkProc 2 (mkSim 2 (mkCircuit 2 2 [HGate 1; Measure 1 1])))).2).
Proof.
  exact (proj1 (process_token_circuit_independent_of_history
                  (fresh_processor 2)
                  (mkProc 2 (mkSim 2 (mkCircuit 2 2 [HGate 1; Measure 1 1])))
                  9 "phase" (fun _ => 0%N) (fun _ => 3%N) []
                  ltac:(simpl; lia) eq_refl)).
Defined.

(** *** The Bell pair *)

Lemma bell_state i :
  Aer.evolve [HGate 0; CXGate 0 1] i
  = if ((i =? 0) || (i =? 3))%N then bell_amp else Aer.C0.
Proof.
  unfold Aer.evolve. cbn [fold_left]. unfold Aer.apply_gate, Aer.ground, Aer.flip.
  change (Z.to_N 0) with 0%N. change (Z.to_N 1) with 1%N.
  destruct i as [|[[p|p|]|[p|p|]|]]; simpl;
    unfold Aer.Cscale, Aer.Cadd, Aer.Csub, Aer.C0, Aer.C1, bell_amp;
    cbn [fst snd]; f_equal; ring.
Qed.

Lemma evolve_measures gs l :
  Aer.evolve (gs ++ measure_everything l) = Aer.evolve gs.
Proof.
  unfold Aer.evolve, measure_everything. rewrite fold_left_app.
  generalize (fold_left (fun psi g => Aer.apply_gate g psi) gs Aer.ground).
  induction (range l) as [|q qs IH]; intros psi; simpl; [done | apply IH].
Qed.

Lemma norm2_bell_amp : Aer.Cnorm2 bell_amp = (1 / 2)%R.
Proof.
  unfold Aer.Cnorm2, bell_amp. cbn [fst snd].
  assert (Hs : (sqrt 2 * sqrt 2 = 2)%R) by (apply sqrt_sqrt; lra).
  assert (Hpos : (0 < sqrt 2)%R) by (apply sqrt_lt_R0; lra).
  rewrite Rmult_0_l, Rplus_0_r. rewrite <- Rinv_mult, Hs. lra.
Qed.

Lemma norm2_C0 : Aer.Cnorm2 Aer.C0 = 0%R.
Proof. unfold Aer.Cnorm2, Aer.C0. cbn [fst snd]. ring. Qed.

Lemma bell_born n i :
  Aer.born (Aer.evolve (data (bell_circuit n))) i
  = if ((i =? 0) || (i =? 3))%N then (1 / 2)%R else 0%R.
Proof.
  unfold Aer.born, bell_circuit. cbn [data].
  rewrite evolve_measures, bell_state.
  destruct ((i =? 0) || (i =? 3))%N; [apply norm2_bell_amp | apply norm2_C0].
Qed.

(** The classical register after [measure_all]. *)
Lemma creg_bit_app gs1 gs2 i c :
  Aer.creg_bit (gs1 ++ gs2) i c
  = fold_left (fun b g => match g with
                        | Measure q c' => if c' =? c then N.testbit i (Z.to_N q)
                                          else b
                        | _ => b
                        end) gs2 (Aer.creg_bit gs1 i c).
Proof. unfold Aer.creg_bit. by rewrite fold_left_app. Qed.

Lemma creg_bit_measure_seq (m : nat) i c b0 :
  fold_left (fun b g => match g with
                        | Measure q c' => if c' =? c then N.testbit i (Z.to_N q)
                                          else b
                        | _ => b
                        end)
            (map (fun k => Measure k k) (map Z.of_nat (seq 0 m))) b0
  = if (0 <=? c) && (c <? Z.of_nat m) then N.testbit i (Z.to_N c) else b0.
Proof.
  induction m as [|m IH].
  - simpl. destruct (Z.leb_spec 0 c), (Z.ltb_spec c (Z.of_nat 0)); simpl; try done; lia.
  - rewrite seq_S, !map_app, fold_left_app, IH. simpl.
    destruct (Z.eqb_spec (Z.of_nat m) c) as [<-|Hne].
    + destruct (Z.leb_spec 0 (Z.of_nat m)), (Z.ltb_spec (Z.of_nat m) (Z.of_nat (S m)));
        simpl; try lia; done.
    + destruct (Z.leb_spec 0 c), (Z.ltb_spec c (Z.of_nat m)),
        (Z.ltb_spec c (Z.of_nat (S m))); simpl; try lia; done.
Qed.

Lemma bitstring_ext w bit bit' :
  (forall c, 0 <= c < Z.of_nat w -> bit c = bit' c) ->
  Aer.bitstring w bit = Aer.bitstring w bit'.
Proof.
  induction w as [|w IH]; intros Hb; simpl; [done |].
  rewrite (Hb (Z.of_nat w)) by lia. f_equal. apply IH. intros c Hc. apply Hb. lia.
Qed.

Lemma bitstring_inj w bit bit' :
  Aer.bitstring w bit = Aer.bitstring w bit' ->
  forall c, 0 <= c < Z.of_nat w -> bit c = bit' c.
Proof.
  induction w as [|w IH]; intros Hb c Hc; [lia |].
  simpl in Hb. injection Hb as Hhd Htl.
  destruct (decide (c = Z.of_nat w)) as [->|Hne].
  - by destruct (bit (Z.of_nat w)), (bit' (Z.of_nat w)).
  - apply IH; [done | lia].
Qed.

Lemma bell_outcome n i :
  0 <= n ->
  Aer.outcome (bell_circuit n) i
  = Aer.bitstring (Z.to_nat n) (fun c => N.testbit i (Z.to_N c)).
Proof.
  intros Hn. unfold Aer.outcome, bell_circuit. cbn [num_clbits data].
  apply bitstring_ext. intros c Hc.
  rewrite creg_bit_app. unfold measure_everything, range.
  rewrite creg_bit_measure_seq.
  destruct (Z.leb_spec 0 c), (Z.ltb_spec c (Z.of_nat (Z.to_nat n))); simpl; try lia; done.
Qed.

Lemma bell_outcome_0 n : 0 <= n -> Aer.outcome (bell_circuit n) 0 = key00 n.
Proof. intros Hn. by rewrite bell_outcome. Qed.

Lemma bell_outcome_3 n : 0 <= n -> Aer.outcome (bell_circuit n) 3 = key11 n.
Proof.
  intros Hn. rewrite bell_outcome by done. apply bitstring_ext. intros c Hc.
  destruct (Z.ltb_spec c 2).
  - assert (c = 0 \/ c = 1) as [-> | ->] by lia; done.
  - destruct (Z.to_N c) as [|[q|q|]] eqn:E; try done; lia.
Qed.

Lemma key00_ne_key11 n : 1 <= n -> key00 n <> key11 n.
Proof.
  intros Hn Heq. unfold key00, key11 in Heq.
  pose proof (bitstring_inj _ _ _ Heq 0 ltac:(lia)) as H0. done.
Qed.

Lemma bell_pair_histogram_sample n shots rng :
  2 <= n -> 0 < shots ->
  bell_pair_histogram n shots rng
  = inr (Aer.sample (bell_circuit n) shots rng).
Proof.
  intros Hn Hs. unfold bell_pair_histogram, QuantumSimulator.__init__, Qiskit.new.
  destruct (Z.ltb_spec n 0); [lia |]. simpl orb. cbv iota. unfold bind.
  assert (Hwf : sim_wf (mkSim n (mkCircuit n n []))) by (by split).
  rewrite create_bell_pair_appends by (done || (simpl; lia)).
  rewrite measure_all_appends by (by apply sim_wf_extend).
  rewrite run_returns_counts; [done | | done].
  apply measures_present. simpl. lia.
Qed.

Lemma bell_draw_outcome n rng k :
  0 <= n -> Aer.born_draws (bell_circuit n) rng ->
  Aer.outcome (bell_circuit n) (rng k) = key00 n \/
  Aer.outcome (bell_circuit n) (rng k) = key11 n.
Proof.
  intros Hn Hrng. destruct (Hrng k) as [_ Hpos].
  rewrite bell_born in Hpos.
  destruct (N.eqb_spec (rng k) 0) as [->|H0].
  { left. by apply bell_outcome_0. }
  destruct (N.eqb_spec (rng k) 3) as [->|H3].
  { right. by apply bell_outcome_3. }
  simpl in Hpos. lra.
Qed.

Lemma Rsum_app l1 l2 : Aer.Rsum (l1 ++ l2) = (Aer.Rsum l1 + Aer.Rsum l2)%R.
Proof.
  unfold Aer.Rsum. induction l1 as [|r l1 IH]; simpl; [lra | rewrite IH; lra].
Qed.

Lemma Rsum_zero {A} (f : A -> R) (l : list A) :
  (forall a, In a l -> f a = 0%R) -> Aer.Rsum (map f l) = 0%R.
Proof.
  unfold Aer.Rsum. induction l as [|a l IH]; intros Hf; simpl; [done |].
  rewrite Hf by (by left). rewrite IH; [lra |]. intros; apply Hf. by right.
Qed.

Lemma pow2_ge_4 (k : nat) : (2 <= k)%nat -> exists m, (2 ^ k = 4 + m)%nat.
Proof.
  intros Hk. exists (2 ^ k - 4)%nat.
  destruct k as [|[|k']]; [lia | lia |].
  assert (1 <= 2 ^ k')%nat by (apply Nat.neq_0_lt_0, Nat.pow_nonzero; lia).
  rewrite !Nat.pow_succ_r'. lia.
Qed.

Lemma Rsum_basis_support n (f : N -> R) :
  2 <= n ->
  (forall i, i <> 0%N -> i <> 3%N -> f i = 0%R) ->
  Aer.Rsum (map f (Aer.basis n)) = (f 0%N + f 3%N)%R.
Proof.
  intros Hn Hf. unfold Aer.basis.
  destruct (pow2_ge_4 (Z.to_nat n) ltac:(lia)) as [m ->].
  rewrite seq_app, !map_app, Rsum_app.
  rewrite (Rsum_zero f (map N.of_nat (seq (0 + 4) m))).
  - simpl.
    change (N.of_nat 0) with 0%N. change (N.of_nat 1) with 1%N.
    change (N.of_nat 2) with 2%N. change (N.of_nat 3) with 3%N.
    rewrite (Hf 1%N), (Hf 2%N) by done. lra.
  - intros i Hi. apply in_map_iff in Hi as (k & <- & Hk).
    apply in_seq in Hk. apply Hf; lia.
Qed.

Lemma bell_prob n key :
  2 <= n ->
  Aer.prob (bell_circuit n) key
  = if decide (key = key00 n \/ key = key11 n) then (1 / 2)%R else 0%R.
Proof.
  intros Hn. unfold Aer.prob. cbn [num_qubits bell_circuit].
  rewrite Rsum_basis_support; [| done |].
  - rewrite !bell_born. simpl.
    rewrite bell_outcome_0, bell_outcome_3 by lia.
    pose proof (key00_ne_key11 n ltac:(lia)) as Hne.
    destruct (String.eqb_spec (key00 n) key) as [E0|E0],
             (String.eqb_spec (key11 n) key) as [E1|E1].
    + congruence.
    + rewrite decide_True by (by left). lra.
    + rewrite decide_True by (by right). lra.
    + rewrite decide_False by (intros [?|?]; congruence). lra.
  - intros i H0 H3. rewrite bell_born.
    destruct (N.eqb_spec i 0), (N.eqb_spec i 3); try done.
    simpl. by destruct (String.eqb _ _).
Qed.

Lemma key00_2 : key00 2 = "00"%string. Proof. reflexivity. Qed.
Lemma key11_2 : key11 2 = "11"%string. Proof. reflexivity. Qed.
Lemma key00_3 : key00 3 = "000"%string. Proof. reflexivity. Qed.

(** C1, as stated, fails: on a 3-qubit simulator the histogram of the Bell
    circuit has the 3-character key "000", which is neither "00" nor
    "11". *)
Lemma bell_histogram_keys_three_qubits :
  ~ (forall (n shots : Z) (rng : nat -> N) (counts : gmap string Z),
       2 <= n -> 1 <= shots ->
       Aer.born_draws (bell_circuit n) rng ->
       bell_pair_histogram n shots rng = inr counts ->
       forall key, is_Some (counts !! key) ->
                   key = "00"%string \/ key = "11"%string).
Proof.
  intros Hclaim.
  assert (Hdraws : Aer.born_draws (bell_circuit 3) (fun _ => 0%N)).
  { intros k. split; [done |]. rewrite bell_born. simpl. lra. }
  specialize (Hclaim 3 1 (fun _ => 0%N) _ ltac:(lia) ltac:(lia) Hdraws
                     (bell_pair_histogram_sample 3 1 _ ltac:(lia) ltac:(lia))
                     "000"%string).
  destruct Hclaim as [Hk | Hk]; [| discriminate Hk | discriminate Hk].
  rewrite sample_is_tally_all, <- key00_3, <- (bell_outcome_0 3) by lia.
  apply (tally_all_hit (fun s => Aer.outcome (bell_circuit 3) 0) _ _ 0%nat).
  by left.
Qed.

(** C1, amended: for every simulator with [n >= 2] qubits,
    [create_bell_pair] appends exactly Hadamard on qubit 0 then
    ControlledX(0,1).  Run from the ground state these give amplitude
    [1/sqrt 2] to the two basis states in which qubits 0 and 1 are both 0
    or both 1 (every other qubit 0) and amplitude 0 to all others, so the
    Born probabilities are 0.5 for each of these two and 0 for the rest.
    After [measure_all] the keys are [n] characters wide: the key of all
    zeros and the key with bits 0 and 1 set have probability 0.5 each,
    every other key has probability 0, and for every shot count [>= 1]
    the histogram keys are among these two; for [n = 2] they are "00" and
    "11". *)
Theorem create_bell_pair_state_and_histogram
    (s : QuantumSimulator) (shots : Z) (rng : nat -> N) :
  sim_wf s -> 2 <= sim_num_qubits s -> 1 <= shots ->
  Aer.born_draws (bell_circuit (sim_num_qubits s)) rng ->
  let n := sim_num_qubits s in
  QuantumSimulator.create_bell_pair s
    = (inr (extend_sim [HGate 0; CXGate 0 1] s),
       extend_sim [HGate 0; CXGate 0 1] s) /\
  (forall i, Aer.evolve [HGate 0; CXGate 0 1] i
             = if ((i =? 0) || (i =? 3))%N then ((/ sqrt 2)%R, 0%R)
               else (0%R, 0%R)) /\
  (forall i, Aer.born (Aer.evolve [HGate 0; CXGate 0 1]) i
             = if ((i =? 0) || (i =? 3))%N then (1 / 2)%R else 0%R) /\
  (forall key, Aer.prob (bell_circuit n) key
               = if decide (key = key00 n \/ key = key11 n)
                 then (1 / 2)%R else 0%R) /\
  (exists counts : gmap string Z,
     bell_pair_histogram n shots rng = inr counts /\
     forall key, is_Some (counts !! key) ->
                 key = key00 n \/ key = key11 n) /\
  key00 2 = "00"%string /\ key11 2 = "11"%string.
Proof.
  intros Hwf Hn Hshots Hdraws n.
  split; [by apply create_bell_pair_appends |].
  split; [apply bell_state |].
  split.
  { intros i. unfold Aer.born. rewrite bell_state.
    destruct ((i =? 0) || (i =? 3))%N; [apply norm2_bell_amp | apply norm2_C0]. }
  split; [intros key; by apply bell_prob |].
  split; [| done].
  exists (Aer.sample (bell_circuit n) shots rng).
  split; [apply bell_pair_histogram_sample; (done || lia) |].
  intros key Hk. rewrite sample_is_tally_all in Hk.
  apply tally_all_keys in Hk as [Hk | (k & _ & ->)].
  - rewrite lookup_empty in Hk. by destruct Hk.
  - apply bell_draw_outcome; [unfold n; lia | done].
Qed.

Lemma create_bell_pair_state_and_histogram_witness :
  exists counts : gmap string Z,
    bell_pair_histogram 2 1000 (fun k => if Nat.even k then 0%N else 3%N)
      = inr counts /\
    forall key, is_Some (counts !! key) ->
                key = "00"%string \/ key = "11"%string.
Proof.
  assert (Hwf : sim_wf (mkSim 2 (mkCircuit 2 2 []))) by (by split).
  assert (Hdraws : Aer.born_draws (bell_circuit 2)
                     (fun k => if Nat.even k then 0%N else 3%N)).
  { intros k. rewrite bell_born.
    destruct (Nat.even k); (split; [done | simpl; lra]). }
  destruct (create_bell_pair_state_and_histogram
              (mkSim 2 (mkCircuit 2 2 [])) 1000 _ Hwf
              ltac:(simpl; lia) ltac:(lia) Hdraws)
    as (_ & _ & _ & _ & Hhist & _ & _).
  exact Hhist.
Defined.

(** * Further properties *)

(** *** The log only grows, and only by valid instructions *)

Section AppendsValid.
Context {S : Type}.
Variable ext : list Instruction -> S -> S.
Variables nq nc : S -> Z.
Hypothesis ext_nil : forall s, ext [] s = s.
Hypothesis ext_app : forall gs1 gs2 s, ext gs2 (ext gs1 s) = ext (gs1 ++ gs2) s.
Hypothesis nq_ext : forall gs s, nq (ext gs s) = nq s.
Hypothesis nc_ext : forall gs s, nc (ext gs s) = nc s.

Lemma appends_valid_ret {A} (a : A) : appends_valid ext nq nc (ret a).
Proof. intros s. exists []. by rewrite ext_nil. Qed.

Lemma appends_valid_raise {A} e : appends_valid ext nq nc (@raise S A e).
Proof. intros s. exists []. by rewrite ext_nil. Qed.

Lemma appends_valid_ret_self : appends_valid ext nq nc ret_self.
Proof. intros s. exists []. by rewrite ext_nil. Qed.

Lemma appends_valid_bind {A B} (m : M S A) (k : A -> M S B) :
  appends_valid ext nq nc m -> (forall a, appends_valid ext nq nc (k a)) ->
  appends_valid ext nq nc (bind m k).
Proof.
  intros Hm Hk s. unfold bind. destruct (Hm s) as (gs1 & Hs1 & Hok1).
  destruct (m s) as [[e|a] s1]; simpl in *; [by exists gs1 |].
  destruct (Hk a s1) as (gs2 & Hs2 & Hok2).
  exists (gs1 ++ gs2). rewrite Hs2, Hs1, ext_app. split; [done |].
  rewrite forallb_app, Hok1. rewrite Hs1, nq_ext, nc_ext in Hok2. by rewrite Hok2.
Qed.

Lemma appends_valid_for_each {A} (l : list A) (body : A -> M S unit) :
  (forall a, appends_valid ext nq nc (body a)) ->
  appends_valid ext nq nc (for_each l body).
Proof.
  intros Hbody. induction l as [|a l IH]; simpl; [apply appends_valid_ret |].
  apply appends_valid_bind; [apply Hbody | intros _; apply IH].
Qed.

Lemma appends_valid_if {A} (b : bool) (m1 m2 : M S A) :
  appends_valid ext nq nc m1 -> appends_valid ext nq nc m2 ->
  appends_valid ext nq nc (if b then m1 else m2).
Proof. by destruct b. Qed.
End AppendsValid.

Lemma extend_circuit_app gs1 gs2 c :
  extend_circuit gs2 (extend_circuit gs1 c) = extend_circuit (gs1 ++ gs2) c.
Proof. unfold extend_circuit; simpl. by rewrite app_assoc. Qed.

Lemma resolve_bounds size idx q :
  resolve size idx = inr q -> 0 <= q < size.
Proof.
  unfold resolve.
  destruct (Z.leb_spec 0 idx), (Z.ltb_spec idx size); simpl;
    try (intros [= <-]; lia);
    destruct (Z.leb_spec (- size) idx), (Z.ltb_spec idx 0); simpl;
    try (intros [= <-]; lia); done.
Qed.

Lemma resolve_out_of_range size idx :
  idx < - size \/ size <= idx -> 0 <= size -> resolve size idx = inl CircuitError.
Proof.
  intros Hi Hs. unfold resolve.
  destruct (Z.leb_spec 0 idx), (Z.ltb_spec idx size),
    (Z.leb_spec (- size) idx), (Z.ltb_spec idx 0); simpl; try lia; done.
Qed.

Ltac solve_instr_ok :=
  simpl; rewrite ?andb_true_r;
  repeat (apply andb_true_iff; split);
  first [ apply Z.leb_le; lia | apply Z.ltb_lt; lia
        | apply negb_true_iff, Z.eqb_neq; lia ].

Ltac one_gate :=
  match goal with
  | |- context [resolve ?n ?i] =>
      let E := fresh "E" in
      destruct (resolve n i) as [?e|?q] eqn:E;
      [ exists []; by rewrite extend_circuit_nil
      | apply resolve_bounds in E ]
  end.

Lemma circuit_appends_h qubit : circuit_appends (h qubit).
Proof.
  intros c. unfold h, bind, qarg, append. one_gate.
  exists [HGate q]. split; [done | solve_instr_ok].
Qed.

Lemma circuit_appends_x qubit : circuit_appends (x qubit).
Proof.
  intros c. unfold x, bind, qarg, append. one_gate.
  exists [XGate q]. split; [done | solve_instr_ok].
Qed.

Lemma circuit_appends_rz phi qubit : circuit_appends (rz phi qubit).
Proof.
  intros c. unfold rz, bind, qarg, append. one_gate.
  exists [RZGate phi q]. split; [done | solve_instr_ok].
Qed.

Lemma circuit_appends_ry theta qubit : circuit_appends (ry theta qubit).
Proof.
  intros c. unfold ry, bind, qarg, append. one_gate.
  exists [RYGate theta q]. split; [done | solve_instr_ok].
Qed.

Lemma circuit_appends_cx ctl tgt : circuit_appends (cx ctl tgt).
Proof.
  intros c. unfold cx, bind, qarg, append, raise. one_gate. one_gate.
  destruct (Z.eqb_spec q q0) as [->|Hne].
  { exists []. by rewrite extend_circuit_nil. }
  exists [CXGate q q0]. split; [done | solve_instr_ok].
Qed.

Lemma circuit_appends_measure qb cb : circuit_appends (measure qb cb).
Proof.
  intros c. unfold measure, bind, qarg, carg, append. one_gate. one_gate.
  exists [Measure q q0]. split; [done | solve_instr_ok].
Qed.

Lemma sim_appends_on_circuit {A} (m : M QuantumCircuit A) :
  circuit_appends m -> sim_appends (on_circuit m).
Proof.
  intros Hm s. destruct (Hm (circuit s)) as (gs & Hs & Hok).
  exists gs. split; [| done]. unfold on_circuit.
  destruct (m (circuit s)) as [r c']. simpl in *. by rewrite Hs.
Qed.

Lemma proc_appends_on_sim {A} (m : M QuantumSimulator A) :
  sim_appends m -> proc_appends (on_sim m).
Proof.
  intros Hm p. destruct (Hm (quantum_sim p)) as (gs & Hs & Hok).
  exists gs. split; [| done]. unfold on_sim.
  destruct (m (quantum_sim p)) as [r s']. simpl in *. by rewrite Hs.
Qed.

Create HintDb appends.
#[local] Hint Resolve circuit_appends_h circuit_appends_x circuit_appends_rz
  circuit_appends_ry circuit_appends_cx circuit_appends_measure : appends.
#[local] Hint Extern 1 (appends_valid extend_sim _ _ (on_circuit _)) =>
  apply sim_appends_on_circuit : appends.
#[local] Hint Extern 1 (appends_valid extend_proc _ _ (on_sim _)) =>
  apply proc_appends_on_sim : appends.
#[local] Hint Extern 1 (appends_valid extend_circuit _ _ (ret _)) =>
  apply (appends_valid_ret extend_circuit _ _ extend_circuit_nil) : appends.
#[local] Hint Extern 1 (appends_valid extend_sim _ _ (ret _)) =>
  apply (appends_valid_ret extend_sim _ _ extend_sim_nil) : appends.
#[local] Hint Extern 1 (appends_valid extend_proc _ _ (ret _)) =>
  apply (appends_valid_ret extend_proc _ _ extend_proc_nil) : appends.
#[local] Hint Extern 1 (appends_valid extend_sim _ _ ret_self) =>
  apply (appends_valid_ret_self extend_sim _ _ extend_sim_nil) : appends.
#[local] Hint Extern 1 (appends_valid extend_proc _ _ ret_self) =>
  apply (appends_valid_ret_self extend_proc _ _ extend_proc_nil) : appends.
#[local] Hint Extern 2 (appends_valid extend_circuit _ _ (bind _ _)) =>
  apply (appends_valid_bind extend_circuit _ _ extend_circuit_app);
    [done | done | | intros ?] : appends.
#[local] Hint Extern 2 (appends_valid extend_sim _ _ (bind _ _)) =>
  apply (appends_valid_bind extend_sim _ _ extend_sim_app);
    [done | done | | intros ?] : appends.
#[local] Hint Extern 2 (appends_valid extend_proc _ _ (bind _ _)) =>
  apply (appends_valid_bind extend_proc _ _ extend_proc_app);
    [done | done | | intros ?] : appends.

Lemma sim_appends_for_each {A} (l : list A)
    (body : A -> M QuantumSimulator unit) :
  (forall a, sim_appends (body a)) -> sim_appends (for_each l body).
Proof.
  apply (appends_valid_for_each extend_sim _ _ extend_sim_nil extend_sim_app);
    done.
Qed.

Lemma proc_appends_for_each {A} (l : list A)
    (body : A -> M QuantumTokenProcessor unit) :
  (forall a, proc_appends (body a)) -> proc_appends (for_each l body).
Proof.
  apply (appends_valid_for_each extend_proc _ _ extend_proc_nil
           extend_proc_app); done.
Qed.

Lemma circuit_appends_measure_list qs cs : circuit_appends (measure_list qs cs).
Proof.
  unfold measure_list.
  apply (appends_valid_for_each extend_circuit _ _ extend_circuit_nil
           extend_circuit_app); [done | done |].
  intros [q c]. apply circuit_appends_measure.
Qed.

Lemma sim_appends_apply_hadamard q :
  sim_appends (QuantumSimulator.apply_hadamard q).
Proof. unfold QuantumSimulator.apply_hadamard. auto with appends. Qed.

Lemma sim_appends_apply_cnot c t :
  sim_appends (QuantumSimulator.apply_cnot c t).
Proof. unfold QuantumSimulator.apply_cnot. auto with appends. Qed.

Lemma sim_appends_apply_phase q a :
  sim_appends (QuantumSimulator.apply_phase q a).
Proof. unfold QuantumSimulator.apply_phase. auto with appends. Qed.

Lemma sim_appends_measure_qubit q c :
  sim_appends (QuantumSimulator.measure_qubit q c).
Proof. unfold QuantumSimulator.measure_qubit. auto with appends. Qed.

Lemma sim_appends_measure_all : sim_appends QuantumSimulator.measure_all.
Proof.
  unfold QuantumSimulator.measure_all.
  auto 8 using sim_appends_for_each with appends.
Qed.

Lemma sim_appends_run shots rng : sim_appends (QuantumSimulator.run shots rng).
Proof. intros s. exists []. by rewrite extend_sim_nil. Qed.

Lemma sim_appends_create_bell_pair :
  sim_appends QuantumSimulator.create_bell_pair.
Proof.
  unfold QuantumSimulator.create_bell_pair.
  auto 8 using sim_appends_apply_hadamard, sim_appends_apply_cnot with appends.
Qed.

Lemma sim_appends_quantum_teleportation st :
  sim_appends (QuantumSimulator.quantum_teleportation st).
Proof.
  unfold QuantumSimulator.quantum_teleportation.
  destruct (Req_dec_T st.1 0), (Req_dec_T st.2 0);
    auto 20 using circuit_appends_measure_list with appends.
Qed.

Lemma invoke_appends c s :
  exists gs, invoke c s = extend_sim gs s /\
    forallb (instr_ok (num_qubits (circuit s)) (num_clbits (circuit s))) gs
    = true.
Proof.
  destruct c; cbn [invoke].
  - exact (sim_appends_apply_hadamard _ s).
  - exact (sim_appends_apply_cnot _ _ s).
  - exact (sim_appends_apply_phase _ _ s).
  - exact (sim_appends_measure_qubit _ _ s).
  - exact (sim_appends_measure_all s).
  - exact (sim_appends_run _ _ s).
  - exact (sim_appends_create_bell_pair s).
  - exact (sim_appends_quantum_teleportation _ s).
Qed.

Lemma invoke_all_appends cs s :
  exists gs, invoke_all cs s = extend_sim gs s /\
    forallb (instr_ok (num_qubits (circuit s)) (num_clbits (circuit s))) gs
    = true.
Proof.
  revert s. induction cs as [|c cs IH]; intros s; simpl.
  - exists []. by rewrite extend_sim_nil.
  - destruct (invoke_appends c s) as (gs1 & -> & Hok1).
    destruct (IH (extend_sim gs1 s)) as (gs2 & Hs2 & Hok2).
    exists (gs1 ++ gs2). unfold invoke_all in *. rewrite Hs2, extend_sim_app.
    split; [done |]. rewrite forallb_app, Hok1. exact Hok2.
Qed.

(** X1: whatever methods a client calls on a simulator, in whatever order
    and whether they return or raise, the instructions already in the log
    stay where they are, the two register sizes do not change, and every
    instruction added has its operands inside the registers (and a
    ControlledX has distinct control and target). *)
Theorem simulator_log_only_grows (calls : list call) (s : QuantumSimulator) :
  exists added : list Instruction,
    invoke_all calls s = extend_sim added s /\
    sim_num_qubits (invoke_all calls s) = sim_num_qubits s /\
    num_qubits (circuit (invoke_all calls s)) = num_qubits (circuit s) /\
    num_clbits (circuit (invoke_all calls s)) = num_clbits (circuit s) /\
    data (circuit (invoke_all calls s)) = data (circuit s) ++ added /\
    forallb (instr_ok (num_qubits (circuit s)) (num_clbits (circuit s))) added
    = true.
Proof.
  destruct (invoke_all_appends calls s) as (gs & Hs & Hok).
  exists gs. by rewrite Hs.
Qed.

(** X2: a simulator made by the constructor and then used through any
    sequence of method calls always holds a valid circuit: both registers
    have the size given at construction and every logged instruction is
    within them. *)
Theorem reachable_simulator_is_valid
    (n : Z) (s : QuantumSimulator) (calls : list call) :
  QuantumSimulator.__init__ n = inr s ->
  sim_wf (invoke_all calls s) /\
  sim_num_qubits (invoke_all calls s) = n /\
  0 <= n /\
  circuit_ok (circuit (invoke_all calls s)) = true.
Proof.
  unfold QuantumSimulator.__init__, Qiskit.new.
  destruct (Z.ltb_spec n 0); simpl; [done |]. intros [= <-].
  destruct (invoke_all_appends calls (mkSim n (mkCircuit n n [])))
    as (gs & -> & Hok).
  repeat split; done.
Qed.

Lemma reachable_simulator_is_valid_witness :
  circuit_ok (circuit (invoke_all
     [CreateBellPair; ApplyCnot 0 0; ApplyHadamard 7; MeasureAll;
      Run 10 (fun _ => 0%N)]
     (mkSim 2 (mkCircuit 2 2 [])))) = true.
Proof.
  exact (proj2 (proj2 (proj2 (reachable_simulator_is_valid 2
           (mkSim 2 (mkCircuit 2 2 [])) _ eq_refl)))).
Defined.

(** *** Calls that raise *)

Lemma on_circuit_unchanged {A} (m : M QuantumCircuit A) r s :
  m (circuit s) = (r, circuit s) -> on_circuit m s = (r, s).
Proof. intros Hm. unfold on_circuit. rewrite Hm. by destruct s. Qed.

Section OutOfRange.
Variable s : QuantumSimulator.
Hypothesis Hwf : sim_wf s.
Hypothesis Hn : 0 <= sim_num_qubits s.

Lemma sim_resolve_q_error q :
  out_of_range (sim_num_qubits s) q -> resolve (num_qubits (circuit s)) q = inl CircuitError.
Proof.
  intros Hq. destruct Hwf as [Hnq _]. rewrite Hnq.
  by apply resolve_out_of_range.
Qed.

Lemma sim_resolve_c_error c :
  out_of_range (sim_num_qubits s) c -> resolve (num_clbits (circuit s)) c = inl CircuitError.
Proof.
  intros Hq. destruct Hwf as [_ Hnc]. rewrite Hnc.
  by apply resolve_out_of_range.
Qed.

Lemma sim_h_error q :
  out_of_range (sim_num_qubits s) q -> on_circuit (h q) s = (inl CircuitError, s).
Proof.
  intros Hq. apply on_circuit_unchanged. unfold h, bind, qarg.
  by rewrite sim_resolve_q_error.
Qed.

Lemma sim_x_error q :
  out_of_range (sim_num_qubits s) q -> on_circuit (x q) s = (inl CircuitError, s).
Proof.
  intros Hq. apply on_circuit_unchanged. unfold x, bind, qarg.
  by rewrite sim_resolve_q_error.
Qed.

Lemma sim_rz_error phi q :
  out_of_range (sim_num_qubits s) q -> on_circuit (rz phi q) s = (inl CircuitError, s).
Proof.
  intros Hq. apply on_circuit_unchanged. unfold rz, bind, qarg.
  by rewrite sim_resolve_q_error.
Qed.

Lemma sim_ry_error theta q :
  out_of_range (sim_num_qubits s) q -> on_circuit (ry theta q) s = (inl CircuitError, s).
Proof.
  intros Hq. apply on_circuit_unchanged. unfold ry, bind, qarg.
  by rewrite sim_resolve_q_error.
Qed.

Lemma sim_cx_error c t :
  out_of_range (sim_num_qubits s) c \/ out_of_range (sim_num_qubits s) t \/ (0 <= c < sim_num_qubits s /\ c = t) ->
  on_circuit (cx c t) s = (inl CircuitError, s).
Proof.
  intros Hct. apply on_circuit_unchanged. unfold cx, bind, qarg, raise.
  destruct (resolve (num_qubits (circuit s)) c) as [e|c'] eqn:Ec.
  { destruct Hct as [Hc | [Ht | [Hc ->]]].
    - rewrite sim_resolve_q_error in Ec by done. by injection Ec as <-.
    - pose proof Ec as Ec'. unfold resolve in Ec'.
      repeat case_match; by simplify_eq.
    - by rewrite sim_resolve_q in Ec. }
  destruct (resolve (num_qubits (circuit s)) t) as [e|t'] eqn:Et.
  { unfold resolve in Et. repeat case_match; by simplify_eq. }
  destruct Hct as [Hc | [Ht | [Hc ->]]].
  - by rewrite sim_resolve_q_error in Ec.
  - by rewrite sim_resolve_q_error in Et.
  - rewrite Ec in Et. injection Et as ->. by rewrite Z.eqb_refl.
Qed.

Lemma sim_measure_error q c :
  out_of_range (sim_num_qubits s) q \/ out_of_range (sim_num_qubits s) c ->
  on_circuit (measure q c) s = (inl CircuitError, s).
Proof.
  intros Hqc. apply on_circuit_unchanged. unfold measure, bind, qarg, carg.
  destruct (resolve (num_qubits (circuit s)) q) as [e|q'] eqn:Eq.
  { unfold resolve in Eq. repeat case_match; by simplify_eq. }
  destruct Hqc as [Hq | Hc].
  - by rewrite sim_resolve_q_error in Eq.
  - by rewrite sim_resolve_c_error.
Qed.
End OutOfRange.

(** X3: a gate method called with an index outside the register, or
    [apply_cnot] with the control as target, raises the library's
    [CircuitError] and leaves the simulator exactly as it was. *)
Theorem gate_methods_reject_bad_indices
    (s : QuantumSimulator) (q c : Z) (angle : R) :
  sim_wf s -> 0 <= sim_num_qubits s ->
  out_of_range (sim_num_qubits s) q ->
  QuantumSimulator.apply_hadamard q s = (inl CircuitError, s) /\
  QuantumSimulator.apply_phase q angle s = (inl CircuitError, s) /\
  QuantumSimulator.apply_cnot q c s = (inl CircuitError, s) /\
  QuantumSimulator.apply_cnot c q s = (inl CircuitError, s) /\
  QuantumSimulator.measure_qubit q c s = (inl CircuitError, s) /\
  QuantumSimulator.measure_qubit c q s = (inl CircuitError, s) /\
  (0 <= c < sim_num_qubits s ->
   QuantumSimulator.apply_cnot c c s = (inl CircuitError, s)).
Proof.
  intros Hwf Hn Hq.
  unfold QuantumSimulator.apply_hadamard, QuantumSimulator.apply_phase,
    QuantumSimulator.apply_cnot, QuantumSimulator.measure_qubit, bind.
  rewrite sim_h_error, sim_rz_error by done.
  rewrite (sim_cx_error s Hwf Hn q c) by (by left).
  rewrite (sim_cx_error s Hwf Hn c q) by (by right; left).
  rewrite (sim_measure_error s Hwf Hn q c) by (by left).
  rewrite (sim_measure_error s Hwf Hn c q) by (by right).
  repeat split; try done.
  intros Hc. rewrite sim_cx_error; [done | done | done |].
  right; right. done.
Qed.

Lemma gate_methods_reject_bad_indices_witness :
  QuantumSimulator.apply_hadamard 2 (mkSim 2 (mkCircuit 2 2 [HGate 0]))
  = (inl CircuitError, mkSim 2 (mkCircuit 2 2 [HGate 0])).
Proof.
  assert (Hwf : sim_wf (mkSim 2 (mkCircuit 2 2 [HGate 0]))) by (by split).
  exact (proj1 (gate_methods_reject_bad_indices _ 2 0 0%R Hwf
                  ltac:(simpl; lia) ltac:(right; simpl; lia))).
Defined.

(** X4: [create_bell_pair] on a simulator with fewer than two qubits
    raises [CircuitError]; with one qubit the Hadamard on qubit 0 has
    already been appended and stays in the circuit, with no qubit nothing
    is appended. *)
Theorem create_bell_pair_too_few_qubits (s : QuantumSimulator) :
  sim_wf s -> 0 <= sim_num_qubits s < 2 ->
  QuantumSimulator.create_bell_pair s
  = (inl CircuitError,
     if sim_num_qubits s =? 1 then extend_sim [HGate 0] s else s).
Proof.
  intros Hwf Hn. unfold QuantumSimulator.create_bell_pair, bind.
  destruct (Z.eqb_spec (sim_num_qubits s) 1) as [H1 | H1].
  - rewrite apply_hadamard_appends by (done || lia).
    unfold QuantumSimulator.apply_cnot, bind.
    rewrite sim_cx_error; [done | by apply sim_wf_extend | simpl; lia |].
    right; left. right. simpl. lia.
  - unfold QuantumSimulator.apply_hadamard, bind.
    rewrite sim_h_error; [done | done | lia |]. right. lia.
Qed.

Lemma create_bell_pair_too_few_qubits_witness :
  QuantumSimulator.create_bell_pair (mkSim 1 (mkCircuit 1 1 []))
  = (inl CircuitError, mkSim 1 (mkCircuit 1 1 [HGate 0])).
Proof.
  assert (Hwf : sim_wf (mkSim 1 (mkCircuit 1 1 []))) by (by split).
  exact (create_bell_pair_too_few_qubits _ Hwf ltac:(simpl; lia)).
Defined.

(** X5: [quantum_teleportation] on a simulator with fewer than three
    qubits raises [CircuitError] and leaves a partial circuit: nothing
    with no qubit; the preparation of qubit 0 with one qubit; the
    preparation and the Hadamard on qubit 1 with two qubits.  No
    measurement is ever appended. *)
Theorem quantum_teleportation_too_few_qubits
    (s : QuantumSimulator) (a b : R) :
  sim_wf s -> 0 <= sim_num_qubits s < 3 ->
  let prep := (if Req_dec_T a 0%R then [] else [XGate 0]) ++
              (if Req_dec_T b 0%R then [] else [RZGate b 0]) in
  let partial :=
    if sim_num_qubits s =? 0 then []
    else if sim_num_qubits s =? 1 then prep
         else prep ++ [HGate 1] in
  QuantumSimulator.quantum_teleportation (a, b) s
    = (inl CircuitError, extend_sim partial s) /\
  existsb is_measure partial = false.
Proof.
  intros Hwf Hn prep partial. unfold partial, prep. clear partial prep.
  unfold QuantumSimulator.quantum_teleportation. cbn [fst snd].
  destruct (Z.eqb_spec (sim_num_qubits s) 0) as [H0 | H0].
  { split; [| done]. rewrite extend_sim_nil. unfold bind, ret.
    destruct (Req_dec_T a 0).
    - destruct (Req_dec_T b 0).
      + rewrite sim_h_error; [done | done | lia | right; lia].
      + rewrite sim_rz_error; [done | done | lia | right; lia].
    - rewrite sim_x_error; [done | done | lia | right; lia]. }
  destruct (Z.eqb_spec (sim_num_qubits s) 1) as [H1 | H1].
  { split; [| by destruct (Req_dec_T a 0), (Req_dec_T b 0)].
    unfold bind, ret.
    destruct (Req_dec_T a 0), (Req_dec_T b 0); repeat sim_step;
      rewrite ?extend_sim_nil;
      (rewrite sim_h_error;
       [done | by repeat apply sim_wf_extend | simpl; lia | right; simpl; lia]). }
  split; [| by destruct (Req_dec_T a 0), (Req_dec_T b 0)].
  unfold bind, ret.
  destruct (Req_dec_T a 0), (Req_dec_T b 0); repeat sim_step;
    rewrite ?extend_sim_nil;
    (rewrite sim_cx_error;
     [done | by repeat apply sim_wf_extend | simpl; lia
     | right; left; right; simpl; lia]).
Qed.

Lemma quantum_teleportation_too_few_qubits_witness :
  QuantumSimulator.quantum_teleportation (1%R, 0%R) (mkSim 2 (mkCircuit 2 2 []))
  = (inl CircuitError,
     extend_sim
       ((if Req_dec_T 1 0%R then [] else [XGate 0]) ++
        (if Req_dec_T 0 0%R then [] else [RZGate 0 0]) ++ [HGate 1])
       (mkSim 2 (mkCircuit 2 2 []))).
Proof.
  assert (Hwf : sim_wf (mkSim 2 (mkCircuit 2 2 []))) by (by split).
  pose proof (proj1 (quantum_teleportation_too_few_qubits _ 1%R 0%R Hwf
                       ltac:(simpl; lia))) as H.
  simpl in H. rewrite <- app_assoc in H. exact H.
Defined.

(** *** More on the token encodings *)

(** X6: for every integer token and every processor with [n >= 1] qubits,
    the phase encoding appends exactly Hadamard on qubits [0 .. n-1] in
    increasing order, RotationZ on qubit 0 with angle
    [((token mod 2^n) / 2^n) * 2 pi], a value in [[0, 2 pi)], and
    ControlledX(i, i+1) for [i = 0 .. n-2]: [2 n] gates in all. *)
Theorem phase_encoding_gate_sequence
    (p : QuantumTokenProcessor) (token_id : Z) :
  proc_wf p -> 1 <= n_qubits p ->
  let n := n_qubits p in
  let angle := (IZR (token_id mod 2 ^ n) / IZR (2 ^ n) * (2 * PI))%R in
  let gates := map HGate (range n) ++ RZGate angle 0 :: cnot_chain n in
  QuantumTokenProcessor._phase_encoding token_id p
    = (inr tt, extend_proc gates p) /\
  (0 <= angle < 2 * PI)%R /\
  Z.of_nat (length gates) = 2 * n /\
  (forall k : nat, (k < Z.to_nat n)%nat ->
     gates !! k = Some (HGate (Z.of_nat k))).
Proof.
  intros Hwf Hn n angle gates.
  split; [by apply phase_encoding_appends |].
  split; [| split].
  - unfold angle.
    pose proof (normalized_in_unit_interval token_id n ltac:(lia)) as [Hlo Hhi].
    pose proof PI_RGT_0 as Hpi.
    split; [apply Rmult_le_pos; lra |].
    rewrite <- (Rmult_1_l (2 * PI)) at 2. apply Rmult_lt_compat_r; lra.
  - unfold gates. rewrite length_app, length_map, range_length. simpl.
    rewrite cnot_chain_length. lia.
  - intros k Hk. unfold gates.
    rewrite lookup_app_l by (by rewrite length_map, range_length).
    by rewrite list_lookup_fmap, range_lookup.
Qed.

Lemma phase_encoding_gate_sequence_witness :
  QuantumTokenProcessor._phase_encoding 3
    (mkProc 2 (mkSim 2 (mkCircuit 2 2 [])))
  = (inr tt,
     mkProc 2 (mkSim 2 (mkCircuit 2 2
       [HGate 0; HGate 1;
        RZGate (IZR (3 mod 2 ^ 2) / IZR (2 ^ 2) * (2 * PI))%R 0;
        CXGate 0 1]))).
Proof.
  assert (Hwf : proc_wf (mkProc 2 (mkSim 2 (mkCircuit 2 2 []))))
    by (by repeat split).
  exact (proj1 (phase_encoding_gate_sequence _ 3 Hwf ltac:(simpl; lia))).
Defined.

Lemma amplitude_encoding_periodic p t k :
  QuantumTokenProcessor._amplitude_encoding (t + k * 2 ^ n_qubits p) p
  = QuantumTokenProcessor._amplitude_encoding t p.
Proof.
  unfold QuantumTokenProcessor._amplitude_encoding, bind, ret_self.
  by rewrite Z_mod_plus_full.
Qed.

Lemma phase_encoding_periodic p t k :
  QuantumTokenProcessor._phase_encoding (t + k * 2 ^ n_qubits p) p
  = QuantumTokenProcessor._phase_encoding t p.
Proof.
  unfold QuantumTokenProcessor._phase_encoding, bind, ret_self.
  by rewrite Z_mod_plus_full.
Qed.

Lemma pow2_split n : 1 <= n -> 2 ^ (2 * n - 1) = 2 ^ n * 2 ^ (n - 1).
Proof. intros Hn. rewrite <- Z.pow_add_r by lia. f_equal. lia. Qed.

Lemma hybrid_encoding_periodic p t k :
  1 <= n_qubits p ->
  QuantumTokenProcessor._hybrid_encoding (t + k * 2 ^ (2 * n_qubits p - 1)) p
  = QuantumTokenProcessor._hybrid_encoding t p.
Proof.
  intros Hn. unfold QuantumTokenProcessor._hybrid_encoding.
  unfold bind at 1 3, ret_self at 1 2.
  assert (Hp : 0 < 2 ^ (n_qubits p - 1)) by (apply Z.pow_pos_nonneg; lia).
  rewrite pow2_split, Z.mul_assoc by done.
  rewrite Z_mod_plus_full, Z_div_plus_full by lia.
  unfold bind.
  destruct (QuantumTokenProcessor._amplitude_encoding _ p) as [[e|[]] p1] eqn:E;
    [done |].
  assert (Hn1 : n_qubits p1 = n_qubits p).
  { pose proof (keeps_amplitude (t mod 2 ^ (n_qubits p - 1)) p) as Hk.
    by rewrite E in Hk. }
  rewrite <- Hn1. apply phase_encoding_periodic.
Qed.

(** X7: [process_token] cannot tell apart two tokens that differ by a
    multiple of the period of the scheme: [2^n] for "amplitude" and
    "phase", [2^(2n-1)] for "hybrid" and every other scheme name.  The
    result and the final state are the same for the same random draws. *)
Theorem process_token_periodic
    (p : QuantumTokenProcessor) (token_id k : Z) (scheme : string)
    (rng : nat -> N) :
  1 <= n_qubits p ->
  let n := n_qubits p in
  let period :=
    if decide (scheme = "amplitude"%string \/ scheme = "phase"%string)
    then 2 ^ n else 2 ^ (2 * n - 1) in
  QuantumTokenProcessor.process_token (token_id + k * period) scheme rng p
  = QuantumTokenProcessor.process_token token_id scheme rng p.
Proof.
  intros Hn n period. unfold QuantumTokenProcessor.process_token.
  rewrite encoding_dispatch. unfold bind.
  destruct (QuantumTokenProcessor.reset_sim p) as [[e|[]] p1] eqn:E; [done |].
  assert (Hn1 : n_qubits p1 = n_qubits p).
  { pose proof (keeps_reset_sim p) as Hk. by rewrite E in Hk. }
  assert (Henc :
    (if decide (scheme = "amplitude"%string)
     then QuantumTokenProcessor._amplitude_encoding
     else if decide (scheme = "phase"%string)
          then QuantumTokenProcessor._phase_encoding
          else QuantumTokenProcessor._hybrid_encoding)
      (token_id + k * period) p1
    = (if decide (scheme = "amplitude"%string)
       then QuantumTokenProcessor._amplitude_encoding
       else if decide (scheme = "phase"%string)
            then QuantumTokenProcessor._phase_encoding
            else QuantumTokenProcessor._hybrid_encoding) token_id p1).
  { unfold period, n. rewrite <- Hn1.
    destruct (decide (scheme = "amplitude"%string)) as [Ha|Ha].
    { rewrite decide_True by (by left). apply amplitude_encoding_periodic. }
    destruct (decide (scheme = "phase"%string)) as [Hp|Hp].
    { rewrite decide_True by (by right). apply phase_encoding_periodic. }
    rewrite decide_False by (by intros [?|?]).
    apply hybrid_encoding_periodic. lia. }
  by rewrite Henc.
Qed.

Lemma process_token_periodic_witness :
  QuantumTokenProcessor.process_token (5 + 3 * 2 ^ (2 * 4 - 1)) "hybrid"
    (fun _ => 0%N) (fresh_processor 4)
  = QuantumTokenProcessor.process_token 5 "hybrid" (fun _ => 0%N)
      (fresh_processor 4).
Proof.
  exact (process_token_periodic (fresh_processor 4) 5 3 "hybrid"
           (fun _ => 0%N) ltac:(simpl; lia)).
Defined.

Lemma scaled_angle_inj (x y m : Z) (c : R) :
  0 < m -> c <> 0%R ->
  (IZR x / IZR m * c = IZR y / IZR m * c)%R -> x = y.
Proof.
  intros Hm Hc Heq.
  assert (HmR : (0 < IZR m)%R) by (by apply IZR_lt).
  apply Rmult_eq_reg_r in Heq; [| done].
  unfold Rdiv in Heq. apply Rmult_eq_reg_r in Heq.
  - by apply eq_IZR.
  - apply Rinv_neq_0_compat. lra.
Qed.

Lemma extend_proc_inj gs gs' p :
  extend_proc gs p = extend_proc gs' p -> gs = gs'.
Proof.
  unfold extend_proc, extend_sim, extend_circuit. intros [= Heq].
  by apply app_inv_head in Heq.
Qed.

Lemma amplitude_gates_inj n x y :
  0 <= n -> spec_amplitude_gates n x = spec_amplitude_gates n y ->
  x mod 2 ^ n = y mod 2 ^ n.
Proof.
  intros Hn. unfold spec_amplitude_gates. intros [= Heq].
  apply scaled_angle_inj in Heq; [done | apply Z.pow_pos_nonneg; lia |].
  pose proof PI_RGT_0. lra.
Qed.

Lemma phase_gates_inj n x y :
  0 <= n -> spec_phase_gates n x = spec_phase_gates n y ->
  x mod 2 ^ n = y mod 2 ^ n.
Proof.
  intros Hn. unfold spec_phase_gates. intros Heq.
  apply app_inv_head in Heq. injection Heq as Heq.
  apply scaled_angle_inj in Heq; [done | apply Z.pow_pos_nonneg; lia |].
  pose proof PI_RGT_0. lra.
Qed.

Lemma hybrid_parts_iff n t t' :
  1 <= n ->
  t mod 2 ^ (2 * n - 1) = t' mod 2 ^ (2 * n - 1) <->
  t mod 2 ^ (n - 1) = t' mod 2 ^ (n - 1) /\
  (t / 2 ^ (n - 1)) mod 2 ^ n = (t' / 2 ^ (n - 1)) mod 2 ^ n.
Proof.
  intros Hn.
  assert (Hm : 0 < 2 ^ (n - 1)) by (apply Z.pow_pos_nonneg; lia).
  assert (Hk : 0 < 2 ^ n) by (apply Z.pow_pos_nonneg; lia).
  rewrite pow2_split, (Z.mul_comm (2 ^ n)) by done.
  rewrite !Z.rem_mul_r by lia.
  pose proof (Z.mod_pos_bound t (2 ^ (n - 1)) Hm).
  pose proof (Z.mod_pos_bound t' (2 ^ (n - 1)) Hm).
  split.
  - intros Heq.
    assert (Ha : t mod 2 ^ (n - 1) = t' mod 2 ^ (n - 1)).
    { rewrite <- (Z.mod_small (t mod 2 ^ (n - 1)) (2 ^ (n - 1))) by done.
      rewrite <- (Z.mod_small (t' mod 2 ^ (n - 1)) (2 ^ (n - 1))) by done.
      rewrite <- (Z_mod_plus_full (t mod 2 ^ (n - 1))
                    ((t / 2 ^ (n - 1)) mod 2 ^ n) (2 ^ (n - 1))).
      rewrite <- (Z_mod_plus_full (t' mod 2 ^ (n - 1))
                    ((t' / 2 ^ (n - 1)) mod 2 ^ n) (2 ^ (n - 1))).
      f_equal. lia. }
    split; [done |]. rewrite Ha in Heq.
    apply (Z.mul_reg_l _ _ (2 ^ (n - 1))); lia.
  - intros [-> ->]. done.
Qed.

(** X8: on a processor with [1 <= n <= 52] qubits, two tokens get the
    same amplitude-encoded circuit exactly when they agree modulo [2^n],
    and the same phase-encoded circuit exactly when they agree modulo
    [2^n].  (Up to 52 qubits the residue fits the 53-bit significand of a
    double, so the code's quotient by [2^n] is exact and distinct residues
    keep distinct angles; from 53 qubits on the code's angles collide.) *)
Theorem amplitude_and_phase_encoding_collisions
    (p : QuantumTokenProcessor) (t t' : Z) :
  proc_wf p -> 1 <= n_qubits p <= 52 ->
  let n := n_qubits p in
  ((QuantumTokenProcessor._amplitude_encoding t p).2
   = (QuantumTokenProcessor._amplitude_encoding t' p).2
   <-> t mod 2 ^ n = t' mod 2 ^ n) /\
  ((QuantumTokenProcessor._phase_encoding t p).2
   = (QuantumTokenProcessor._phase_encoding t' p).2
   <-> t mod 2 ^ n = t' mod 2 ^ n).
Proof.
  intros Hwf [Hn Hmax] n.
  rewrite !amplitude_encoding_appends, !phase_encoding_appends by done.
  cbn [snd]. split; split.
  - intros Heq. apply extend_proc_inj in Heq.
    apply amplitude_gates_inj in Heq; [done | lia].
  - intros Heq. unfold spec_amplitude_gates. fold n. by rewrite Heq.
  - intros Heq. apply extend_proc_inj in Heq.
    apply phase_gates_inj in Heq; [done | lia].
  - intros Heq. unfold spec_phase_gates. fold n. by rewrite Heq.
Qed.

Lemma amplitude_and_phase_encoding_collisions_witness :
  (QuantumTokenProcessor._amplitude_encoding 3 (fresh_processor 2)).2
  = (QuantumTokenProcessor._amplitude_encoding 7 (fresh_processor 2)).2.
Proof.
  exact (proj2 (proj1 (amplitude_and_phase_encoding_collisions
                         (fresh_processor 2) 3 7 (proc_wf_fresh 2)
                         ltac:(simpl; lia))) eq_refl).
Defined.

(** X9: on a processor with [1 <= n <= 52] qubits, two tokens get the
    same hybrid-encoded circuit exactly when they agree modulo
    [2^(2n-1)]: the hybrid encoding separates [2^(2n-1)] tokens and no
    more.  (The bound on [n] is where the code's doubles are exact, as
    for the amplitude and phase encodings.) *)
Theorem hybrid_encoding_collisions
    (p : QuantumTokenProcessor) (t t' : Z) :
  proc_wf p -> 1 <= n_qubits p <= 52 ->
  let n := n_qubits p in
  (QuantumTokenProcessor._hybrid_encoding t p).2
  = (QuantumTokenProcessor._hybrid_encoding t' p).2
  <-> t mod 2 ^ (2 * n - 1) = t' mod 2 ^ (2 * n - 1).
Proof.
  intros Hwf [Hn Hmax] n.
  rewrite !hybrid_encoding_appends by done. cbn [snd]. fold n.
  rewrite hybrid_parts_iff by done.
  assert (Hm : 0 < 2 ^ (n - 1)) by (apply Z.pow_pos_nonneg; lia).
  assert (Hlt : 2 ^ (n - 1) < 2 ^ n) by (apply Z.pow_lt_mono_r; lia).
  pose proof (Z.mod_pos_bound t (2 ^ (n - 1)) Hm).
  pose proof (Z.mod_pos_bound t' (2 ^ (n - 1)) Hm).
  split.
  - intros Heq. apply extend_proc_inj in Heq.
    unfold spec_amplitude_gates in Heq. simpl in Heq.
    injection Heq as Hangle Hrest.
    apply app_inv_head in Hrest.
    apply phase_gates_inj in Hrest; [| lia].
    apply scaled_angle_inj in Hangle; [| lia | pose proof PI_RGT_0; lra].
    rewrite (Z.mod_small (t mod 2 ^ (n - 1))) in Hangle by lia.
    rewrite (Z.mod_small (t' mod 2 ^ (n - 1))) in Hangle by lia.
    split; [exact Hangle | exact Hrest].
  - intros [Ha Hb]. rewrite Ha. unfold spec_phase_gates. by rewrite Hb.
Qed.

Lemma hybrid_encoding_collisions_witness :
  (QuantumTokenProcessor._hybrid_encoding 1 (fresh_processor 2)).2
  = (QuantumTokenProcessor._hybrid_encoding 9 (fresh_processor 2)).2.
Proof.
  exact (proj2 (hybrid_encoding_collisions
                  (fresh_processor 2) 1 9 (proc_wf_fresh 2)
                  ltac:(simpl; lia)) eq_refl).
Defined.

(** *** What [process_token] returns *)

Lemma scheme_encoding_appends p scheme t :
  proc_wf p -> 1 <= n_qubits p ->
  default QuantumTokenProcessor._hybrid_encoding
          (QuantumTokenProcessor.encoding_schemes !! scheme) t p
  = (inr tt, extend_proc (scheme_gates (n_qubits p) scheme t) p).
Proof.
  intros Hwf Hn. rewrite encoding_dispatch. unfold scheme_gates.
  repeat case_decide.
  - by apply amplitude_encoding_appends.
  - by apply phase_encoding_appends.
  - by apply hybrid_encoding_appends.
Qed.

Lemma process_token_result p t scheme rng :
  1 <= n_qubits p ->
  QuantumTokenProcessor.process_token t scheme rng p
  = (inr ((fun v => Qmake v 1000) <$>
          Aer.sample (mkCircuit (n_qubits p) (n_qubits p)
                        (scheme_gates (n_qubits p) scheme t ++
                         measure_everything (n_qubits p))) 1000 rng),
     mkProc (n_qubits p)
       (mkSim (n_qubits p)
          (mkCircuit (n_qubits p) (n_qubits p)
             (scheme_gates (n_qubits p) scheme t ++
              measure_everything (n_qubits p))))).
Proof.
  intros Hn. unfold QuantumTokenProcessor.process_token.
  unfold bind at 1. rewrite reset_sim_fresh by lia.
  unfold bind at 1.
  rewrite scheme_encoding_appends by (apply proc_wf_fresh || done).
  set (p1 := extend_proc _ _).
  assert (Hwf1 : proc_wf p1) by apply proc_wf_extend, proc_wf_fresh.
  destruct Hwf1 as [Hs1 Hq1].
  unfold bind at 1.
  rewrite (on_sim_extend _ _ _ _ (measure_all_appends _ Hs1)).
  unfold bind, on_sim. rewrite run_returns_counts; [done | | lia].
  cbn [quantum_sim extend_proc extend_sim circuit extend_circuit data].
  apply measures_present. by rewrite Hq1.
Qed.

Lemma total_nonneg (m : gmap string Z) :
  map_Forall (fun _ v => 0 < v) m -> 0 <= Aer.total m.
Proof.
  unfold Aer.total.
  apply (map_fold_weak_ind
           (fun r m => map_Forall (fun _ v => 0 < v) m -> 0 <= r)).
  - lia.
  - intros i v m' r Hi IH Hall.
    apply map_Forall_insert in Hall as [Hv Hm']; [| done].
    specialize (IH Hm'). lia.
Qed.

Lemma value_le_total (m : gmap string Z) key v :
  map_Forall (fun _ v => 0 < v) m -> m !! key = Some v -> v <= Aer.total m.
Proof.
  intros Hall Hk. unfold Aer.total.
  rewrite (map_fold_delete_L _ _ key v m); [| intros; lia | done].
  assert (0 <= Aer.total (delete key m)); [| unfold Aer.total in *; lia].
  apply total_nonneg. intros k' v' Hk'.
  apply lookup_delete_Some in Hk' as [_ Hk']. by apply Hall in Hk'.
Qed.

Lemma Qtotal_scaled (m : gmap string Z) :
  (Qtotal ((fun v => Qmake v 1000) <$> m) == Qmake (Aer.total m) 1000)%Q.
Proof.
  induction m as [|key v m Hkey IH] using map_ind.
  - rewrite fmap_empty. unfold Qtotal, Aer.total. by rewrite !map_fold_empty.
  - rewrite fmap_insert. unfold Qtotal.
    rewrite (map_fold_insert Qeq).
    + fold (Qtotal ((fun v => Qmake v 1000) <$> m)). rewrite IH.
      unfold Aer.total. rewrite map_fold_insert_L; [| intros; lia | done].
      unfold Qeq, Qplus. simpl. lia.
    + intros j z a b Hab. by rewrite Hab.
    + intros j1 j2 z1 z2 y _ _ _. ring.
    + by rewrite lookup_fmap, Hkey.
Qed.

Lemma scheme_gates_length n scheme t :
  1 <= n ->
  Z.of_nat (length (scheme_gates n scheme t ++ measure_everything n))
  = if decide (scheme = "amplitude"%string) then 2 * n
    else if decide (scheme = "phase"%string) then 3 * n else 4 * n.
Proof.
  intros Hn. unfold scheme_gates, measure_everything.
  repeat case_decide;
    unfold spec_amplitude_gates, spec_phase_gates;
    rewrite ?length_app; simpl; rewrite ?length_app; simpl;
    rewrite ?length_map, ?range_length, ?cnot_chain_length; lia.
Qed.

(** X10: on a processor with [n >= 1] qubits, [process_token] returns, for
    every token and every scheme name, a probability distribution: the
    values are rationals in [(0, 1]] that sum to 1, and the keys have [n]
    characters.  The circuit it leaves is the gates of the scheme followed
    by the [n] measurements: [2 n] instructions for "amplitude", [3 n] for
    "phase", [4 n] for "hybrid" and any other name. *)
Theorem process_token_returns_distribution
    (p : QuantumTokenProcessor) (token_id : Z) (scheme : string)
    (rng : nat -> N) :
  1 <= n_qubits p ->
  let n := n_qubits p in
  let built :=
    mkCircuit n n (scheme_gates n scheme token_id ++ measure_everything n) in
  exists dist : gmap string Q,
    QuantumTokenProcessor.process_token token_id scheme rng p
      = (inr dist, mkProc n (mkSim n built)) /\
    (Qtotal dist == 1)%Q /\
    (forall key q, dist !! key = Some q ->
       String.length key = Z.to_nat n /\ (0 < q)%Q /\ (q <= 1)%Q) /\
    Z.of_nat (length (data built))
    = (if decide (scheme = "amplitude"%string) then 2 * n
       else if decide (scheme = "phase"%string) then 3 * n else 4 * n).
Proof.
  intros Hn n built.
  exists ((fun v => Qmake v 1000) <$> Aer.sample built 1000 rng).
  split; [by apply process_token_result |].
  assert (Htot : Aer.total (Aer.sample built 1000 rng) = 1000).
  { rewrite sample_is_tally_all, tally_all_total, total_empty, length_seq.
    lia. }
  assert (Hpos : map_Forall (fun _ v => 0 < v) (Aer.sample built 1000 rng)).
  { rewrite sample_is_tally_all. apply tally_all_positive, map_Forall_empty. }
  split; [| split].
  - rewrite Qtotal_scaled, Htot. reflexivity.
  - intros key q Hq. rewrite lookup_fmap in Hq.
    destruct (Aer.sample built 1000 rng !! key) as [v|] eqn:Hv; [| done].
    injection Hq as <-.
    pose proof (value_le_total _ _ _ Hpos Hv) as Hle. rewrite Htot in Hle.
    pose proof (Hpos key v Hv) as Hv0. simpl in Hv0.
    split; [| split].
    + assert (Hk : is_Some (Aer.sample built 1000 rng !! key)) by (by eexists).
      rewrite sample_is_tally_all in Hk.
      apply tally_all_keys in Hk as [Hk | (k & _ & ->)].
      * rewrite lookup_empty in Hk. by destruct Hk.
      * apply bitstring_length.
    + unfold Qlt. simpl. lia.
    + unfold Qle. simpl. lia.
  - by apply scheme_gates_length.
Qed.

Lemma process_token_returns_distribution_witness :
  exists dist : gmap string Q,
    QuantumTokenProcessor.process_token 11 "phase" (fun _ => 0%N)
      (fresh_processor 2)
      = (inr dist,
         mkProc 2 (mkSim 2 (mkCircuit 2 2
           (scheme_gates 2 "phase" 11 ++ measure_everything 2)))) /\
    (Qtotal dist == 1)%Q.
Proof.
  destruct (process_token_returns_distribution (fresh_processor 2) 11
              "phase" (fun _ => 0%N) ltac:(simpl; lia))
    as (dist & Hrun & Hsum & _).
  exists dist. by split.
Defined.

Lemma process_token_without_qubits_result p token_id scheme rng :
  n_qubits p = 0 ->
  QuantumTokenProcessor.process_token token_id scheme rng p
  = (inl CircuitError, fresh_processor 0).
Proof.
  intros Hn.
  unfold QuantumTokenProcessor.process_token. rewrite encoding_dispatch.
  unfold bind at 1. rewrite reset_sim_fresh by lia. rewrite Hn.
  assert (Ha : forall t, QuantumTokenProcessor._amplitude_encoding t
                           (fresh_processor 0)
                         = (inl CircuitError, fresh_processor 0)) by done.
  assert (Hp : forall t, QuantumTokenProcessor._phase_encoding t
                           (fresh_processor 0)
                         = (inl CircuitError, fresh_processor 0)) by done.
  unfold bind at 1.
  repeat case_decide; rewrite ?Ha, ?Hp; done.
Qed.

(** X11: on a processor with no qubit, every call of [process_token]
    with a token within the range of doubles raises [CircuitError],
    whatever the scheme, and leaves a new simulator with an empty
    circuit. *)
Theorem process_token_without_qubits
    (p : QuantumTokenProcessor) (token_id : Z) (scheme : string)
    (rng : nat -> N) :
  n_qubits p = 0 -> Z.abs token_id < 2 ^ 1023 ->
  QuantumTokenProcessor.process_token token_id scheme rng p
  = (inl CircuitError, fresh_processor 0) /\
  circuit (quantum_sim
     (QuantumTokenProcessor.process_token token_id scheme rng p).2)
  = mkCircuit 0 0 [].
Proof.
  intros Hn _.
  by rewrite process_token_without_qubits_result.
Qed.

Lemma process_token_without_qubits_witness :
  QuantumTokenProcessor.process_token 4 "amplitude" (fun _ => 0%N)
    (fresh_processor 0)
  = (inl CircuitError, fresh_processor 0).
Proof.
  exact (proj1 (process_token_without_qubits (fresh_processor 0) 4
                  "amplitude" (fun _ => 0%N) eq_refl
                  ltac:(vm_compute; reflexivity))).
Defined.

(** *** Processing a text *)

Lemma process_token_distribution p t scheme rng :
  1 <= n_qubits p ->
  QuantumTokenProcessor.process_token t scheme rng p
  = (inr (token_distribution (n_qubits p) scheme t rng),
     mkProc (n_qubits p)
       (mkSim (n_qubits p)
          (mkCircuit (n_qubits p) (n_qubits p)
             (scheme_gates (n_qubits p) scheme t ++
              measure_everything (n_qubits p))))).
Proof. exact (process_token_result p t scheme rng). Qed.

Lemma process_tokens_result scheme rngs n tokens :
  1 <= n ->
  forall (k : nat) (acc : list (gmap string Q)) (p : QuantumTokenProcessor),
  n_qubits p = n ->
  exists ds : list (gmap string Q),
    (QuantumTokenProcessor.process_tokens tokens scheme rngs k acc p).1
      = inr (acc ++ ds) /\
    n_qubits (QuantumTokenProcessor.process_tokens tokens scheme rngs k acc p).2
      = n /\
    length ds = length tokens /\
    forall (i : nat) (token : Z), tokens !! i = Some token ->
      ds !! i = Some (token_distribution n scheme token (rngs (k + i)%nat)).
Proof.
  intros Hn. induction tokens as [|token rest IH]; intros k acc p Hp.
  - exists []. cbn [QuantumTokenProcessor.process_tokens]. unfold ret.
    cbn [fst snd]. by rewrite app_nil_r.
  - cbn [QuantumTokenProcessor.process_tokens]. unfold bind.
    rewrite process_token_distribution by lia. rewrite Hp.
    destruct (IH (S k) (acc ++ [token_distribution n scheme token (rngs k)])
                 (mkProc n (mkSim n (mkCircuit n n
                    (scheme_gates n scheme token ++ measure_everything n))))
                 eq_refl)
      as (ds & Hres & Hnq & Hlen & Hds).
    exists (token_distribution n scheme token (rngs k) :: ds).
    rewrite Hres, Hnq, <- app_assoc.
    split; [done |]. split; [done |].
    split; [cbn [length]; by rewrite Hlen |].
    intros [|i] tok Hi.
    + cbn in Hi. injection Hi as <-. by rewrite Nat.add_0_r.
    + change ((token :: rest) !! S i) with (rest !! i) in Hi.
      change ((token_distribution n scheme token (rngs k) :: ds) !! S i)
        with (ds !! i).
      rewrite (Hds i tok Hi).
      replace (S k + i)%nat with (k + S i)%nat by lia. reflexivity.
Qed.

(** X12: on a processor with [n >= 1] qubits, [process_text] returns one
    distribution per token, in the order of the tokens, and the
    distribution at each position is the one [process_token] gives for that
    token alone on a new processor: no token's embedding depends on the
    tokens before it.  The qubit count is unchanged. *)
Theorem process_text_embeds_tokens_independently
    (p : QuantumTokenProcessor) (tokens : list Z) (scheme : string)
    (rngs : nat -> nat -> N) :
  1 <= n_qubits p ->
  exists embeddings : list (gmap string Q),
    (QuantumTokenProcessor.process_text tokens scheme rngs p).1
      = inr embeddings /\
    n_qubits (QuantumTokenProcessor.process_text tokens scheme rngs p).2
      = n_qubits p /\
    length embeddings = length tokens /\
    forall (k : nat) (token : Z), tokens !! k = Some token ->
      exists dist : gmap string Q,
        embeddings !! k = Some dist /\
        (QuantumTokenProcessor.process_token token scheme (rngs k)
           (fresh_processor (n_qubits p))).1 = inr dist.
Proof.
  intros Hn. unfold QuantumTokenProcessor.process_text.
  destruct (process_tokens_result scheme rngs (n_qubits p) tokens Hn
              0%nat [] p eq_refl)
    as (ds & Hres & Hnq & Hlen & Hds).
  exists ds. repeat split; try done.
  intros k token Hk. eexists. split; [by apply Hds |].
  by rewrite process_token_distribution.
Qed.

Lemma process_text_embeds_tokens_independently_witness :
  exists embeddings : list (gmap string Q),
    (QuantumTokenProcessor.process_text [3; 8; 3] "amplitude"
       (fun _ _ => 0%N) (fresh_processor 2)).1 = inr embeddings /\
    length embeddings = 3%nat.
Proof.
  destruct (process_text_embeds_tokens_independently (fresh_processor 2)
              [3; 8; 3] "amplitude" (fun _ _ => 0%N) ltac:(simpl; lia))
    as (embeddings & Hres & _ & Hlen & _).
  exists embeddings. by split.
Defined.



(** *** Teleportation: what the histogram shows *)

Lemma cos2_sin2 (t : R) : (cos t * cos t + sin t * sin t = 1)%R.
Proof. pose proof (sin2_cos2 t) as H. unfold Rsqr in H. lra. Qed.

Lemma half_sqrt2 : (/ sqrt 2 * / sqrt 2 = 1 / 2)%R.
Proof.
  assert (Hs : (sqrt 2 * sqrt 2 = 2)%R) by (apply sqrt_sqrt; lra).
  rewrite <- Rinv_mult, Hs. lra.
Qed.

Lemma teleport_born (a b : R) (i : N) :
  Aer.born (Aer.evolve (spec_teleport_gates a b)) i
  = if teleport_support a i then (1 / 4)%R else 0%R.
Proof.
  pose proof half_sqrt2 as Hr.
  pose proof (cos2_sin2 (b / 2)) as Hcs.
  pose proof (cos2_sin2 (- (b / 2))) as Hcs'.
  unfold Aer.born, Aer.evolve, spec_teleport_gates, teleport_support.
  destruct (Req_dec_T a 0), (Req_dec_T b 0); cbn [app fold_left];
    unfold Aer.apply_gate, Aer.ground, Aer.flip;
    change (Z.to_N 0) with 0%N; change (Z.to_N 1) with 1%N;
    change (Z.to_N 2) with 2%N;
    destruct i as [|[[[p|p|]|[p|p|]|]|[[p|p|]|[p|p|]|]|]]; simpl;
    unfold Aer.Cnorm2, Aer.Cscale, Aer.Cadd, Aer.Csub, Aer.Cmul, Aer.Cexp_i,
      Aer.C0, Aer.C1; cbn [fst snd];
    set (r := (/ sqrt 2)%R) in *;
    try set (c := cos (b / 2)) in *; try set (s := sin (b / 2)) in *;
    try set (c' := cos (- (b / 2))) in *; try set (s' := sin (- (b / 2))) in *;
    first [ ring
          | transitivity ((r * r) * (r * r))%R; [ring | rewrite Hr; lra]
          | transitivity ((r * r) * (r * r) * (c * c + s * s))%R;
            [ring | rewrite Hr, Hcs; lra]
          | transitivity ((r * r) * (r * r) * (c' * c' + s' * s'))%R;
            [ring | rewrite Hr, Hcs'; lra] ].
Qed.

Lemma teleport_outcome a b i :
  Aer.outcome (teleport_circuit a b) i
  = String "0" (String (if N.testbit i 1 then "1" else "0")%char
                  (String (if N.testbit i 0 then "1" else "0")%char
                     EmptyString)).
Proof.
  unfold Aer.outcome, teleport_circuit, spec_teleport_gates.
  cbn [num_clbits data].
  by destruct (Req_dec_T a 0), (Req_dec_T b 0).
Qed.

Lemma teleport_outcome_in_keys a b i :
  In (Aer.outcome (teleport_circuit a b) i) teleport_keys.
Proof.
  rewrite teleport_outcome. unfold teleport_keys.
  destruct (N.testbit i 1), (N.testbit i 0); simpl; tauto.
Qed.

Lemma teleport_prob a b key :
  Aer.prob (teleport_circuit a b) key
  = if decide (In key teleport_keys) then (1 / 4)%R else 0%R.
Proof.
  unfold Aer.prob. cbn [num_qubits teleport_circuit data].
  change (Aer.basis 3) with [0; 1; 2; 3; 4; 5; 6; 7]%N.
  cbn [map]. rewrite !teleport_born.
  fold (teleport_circuit a b). rewrite !teleport_outcome.
  change (N.testbit 0 0) with false. change (N.testbit 0 1) with false.
  change (N.testbit 1 0) with true. change (N.testbit 1 1) with false.
  change (N.testbit 2 0) with false. change (N.testbit 2 1) with true.
  change (N.testbit 3 0) with true. change (N.testbit 3 1) with true.
  change (N.testbit 4 0) with false. change (N.testbit 4 1) with false.
  change (N.testbit 5 0) with true. change (N.testbit 5 1) with false.
  change (N.testbit 6 0) with false. change (N.testbit 6 1) with true.
  change (N.testbit 7 0) with true. change (N.testbit 7 1) with true.
  cbv iota.
  unfold teleport_support, Aer.Rsum, teleport_keys. cbn [fold_right].
  destruct (Req_dec_T a 0);
    change (0 =? 0)%N with true; change (1 =? 0)%N with false;
    change (2 =? 0)%N with false; change (3 =? 0)%N with false;
    change (4 =? 0)%N with false; change (5 =? 0)%N with false;
    change (6 =? 0)%N with false; change (7 =? 0)%N with false;
    cbn [N.eqb Pos.eqb orb];
    destruct (String.eqb_spec "000" key) as [E0|E0];
    destruct (String.eqb_spec "001" key) as [E1|E1];
    destruct (String.eqb_spec "010" key) as [E2|E2];
    destruct (String.eqb_spec "011" key) as [E3|E3];
    try congruence;
    first [ rewrite decide_True by (subst key; simpl; tauto); lra
          | rewrite decide_False
              by (simpl; intros [?|[?|[?|[?|[]]]]]; congruence);
            lra ].
Qed.

Lemma quantum_teleportation_appends s a b :
  sim_wf s -> 3 <= sim_num_qubits s ->
  QuantumSimulator.quantum_teleportation (a, b) s
  = (inr (extend_sim (spec_teleport_gates a b) s),
     extend_sim (spec_teleport_gates a b) s).
Proof.
  intros Hwf Hn.
  unfold QuantumSimulator.quantum_teleportation, spec_teleport_gates.
  cbn [fst snd].
  assert (Hm : forall s', sim_wf s' -> 3 <= sim_num_qubits s' ->
            on_circuit (measure_list [0; 1] [0; 1]) s'
            = (inr tt, extend_sim [Measure 0 0; Measure 1 1] s')).
  { intros s' Hwf' Hn'. unfold measure_list.
    cbn [zip zip_with for_each fst snd].
    rewrite on_circuit_bind. unfold bind at 1.
    rewrite sim_measure by (done || lia). cbv beta iota.
    rewrite on_circuit_bind. unfold bind at 1.
    rewrite sim_measure by (by apply sim_wf_extend || (simpl; lia)).
    cbv beta iota. by rewrite extend_sim_app. }
  unfold bind.
  destruct (Req_dec_T a 0), (Req_dec_T b 0); unfold ret;
    repeat sim_step;
    (rewrite Hm by (by repeat apply sim_wf_extend || (simpl; lia)));
    cbv beta iota; rewrite ?extend_sim_app; done.
Qed.

Lemma teleport_histogram_sample a b shots rng :
  0 < shots ->
  teleport_histogram a b shots rng
  = inr (Aer.sample (teleport_circuit a b) shots rng).
Proof.
  intros Hs. unfold teleport_histogram.
  change (QuantumSimulator.__init__ 3) with
    (inr (mkSim 3 (mkCircuit 3 3 [])) : exception + QuantumSimulator).
  cbv iota. unfold bind at 1.
  assert (Hwf : sim_wf (mkSim 3 (mkCircuit 3 3 []))) by (by split).
  pose proof (quantum_teleportation_appends _ a b Hwf ltac:(simpl; lia)) as Ht.
  rewrite Ht. rewrite run_returns_counts; [done | | done].
  unfold extend_sim, extend_circuit, spec_teleport_gates. cbn [circuit data].
  by destruct (Req_dec_T a 0), (Req_dec_T b 0).
Qed.

(** X14: for every input pair [[a, b]], the histogram of the teleportation
    circuit on three qubits is uniform over the two measured bits and says
    nothing about the input: each of the keys "000", "001", "010", "011"
    has probability 1/4 and every other key probability 0 (classical bit 2
    is never written).  For every shot count [>= 1] the histogram has only
    these keys and its counts sum to the shot count; this holds for the
    run of [demonstrate_teleportation]. *)
Theorem teleportation_histogram_is_uniform
    (a b : R) (shots : Z) (rng : nat -> N) :
  1 <= shots -> Aer.born_draws (teleport_circuit a b) rng ->
  (forall key, Aer.prob (teleport_circuit a b) key
               = if decide (In key teleport_keys) then (1 / 4)%R else 0%R) /\
  (exists counts : gmap string Z,
     teleport_histogram a b shots rng = inr counts /\
     Aer.total counts = shots /\
     forall key, is_Some (counts !! key) -> In key teleport_keys) /\
  Examples.demonstrate_teleportation rng
  = teleport_histogram 1 (1 / 2) 1000 rng.
Proof.
  intros Hs Hdraws. split; [apply teleport_prob |]. split; [| done].
  exists (Aer.sample (teleport_circuit a b) shots rng).
  split; [apply teleport_histogram_sample; lia |].
  rewrite sample_is_tally_all. split.
  - rewrite tally_all_total, total_empty, length_seq. lia.
  - intros key Hk. apply tally_all_keys in Hk as [Hk | (k & _ & ->)].
    + rewrite lookup_empty in Hk. by destruct Hk.
    + apply teleport_outcome_in_keys.
Qed.

Lemma teleportation_histogram_is_uniform_witness :
  exists counts : gmap string Z,
    teleport_histogram 0 0 4 (fun k => if Nat.even k then 0%N else 7%N)
      = inr counts /\
    Aer.total counts = 4.
Proof.
  assert (Hdraws : Aer.born_draws (teleport_circuit 0 0)
                     (fun k => if Nat.even k then 0%N else 7%N)).
  { intros k. unfold teleport_circuit. cbn [data num_qubits].
    rewrite teleport_born. unfold teleport_support.
    destruct (Req_dec_T 0 0) as [_|Hne]; [| by destruct Hne].
    destruct (Nat.even k); (split; [done | simpl; lra]). }
  destruct (teleportation_histogram_is_uniform 0 0 4 _ ltac:(lia) Hdraws)
    as (_ & (counts & Hrun & Htot & _) & _).
  exists counts. by split.
Defined.

(** *** The statistics of the Bell-pair demonstration *)

Section TwoKeys.
Variables a b : string.
Variable m : gmap string Z.
Hypothesis Hkeys : forall key, is_Some (m !! key) -> key = a \/ key = b.

Lemma two_keys_rest_empty : delete b (delete a m) = ∅.
Proof.
  apply map_eq. intros key. rewrite lookup_empty.
  destruct (decide (key = b)) as [->|Hb]; [by rewrite lookup_delete_eq |].
  rewrite lookup_delete_ne by done.
  destruct (decide (key = a)) as [->|Ha]; [by rewrite lookup_delete_eq |].
  rewrite lookup_delete_ne by done.
  destruct (m !! key) as [v|] eqn:Hk; [| done].
  destruct (Hkeys key) as [?|?]; [by eexists | done | done].
Qed.

Lemma total_delete key :
  Aer.total m = default 0 (m !! key) + Aer.total (delete key m).
Proof.
  unfold Aer.total. destruct (m !! key) as [v|] eqn:Hk; simpl.
  - by rewrite (map_fold_delete_L _ _ key v m); [| intros; lia |].
  - by rewrite delete_id.
Qed.
End TwoKeys.

Lemma two_keys_total a b (m : gmap string Z) :
  a <> b -> (forall key, is_Some (m !! key) -> key = a \/ key = b) ->
  Aer.total m = default 0 (m !! a) + default 0 (m !! b).
Proof.
  intros Hab Hkeys.
  rewrite (total_delete m a), (total_delete (delete a m) b).
  rewrite two_keys_rest_empty, total_empty by done.
  rewrite lookup_delete_ne by done. lia.
Qed.

Lemma two_keys_size a b (m : gmap string Z) :
  a <> b -> (forall key, is_Some (m !! key) -> key = a \/ key = b) ->
  (size m <= 2)%nat.
Proof.
  intros Hab Hkeys.
  pose proof (two_keys_rest_empty a b m Hkeys) as Hempty.
  apply (f_equal size) in Hempty.
  rewrite map_size_empty, !map_size_delete in Hempty.
  destruct (delete a m !! b), (m !! a); simpl in Hempty; lia.
Qed.

(** X15: in [demonstrate_bell_pair] the run returns a histogram whose keys
    are among "00" and "11", and the statistics table shows 1000 total
    measurements, at most 2 unique states and a fidelity of exactly 1. *)
Theorem demonstrate_bell_pair_statistics (rng : nat -> N) :
  Aer.born_draws (bell_circuit 2) rng ->
  exists results : gmap string Z,
    Examples.demonstrate_bell_pair rng = inr results /\
    (forall key, is_Some (results !! key) ->
       key = "00"%string \/ key = "11"%string) /\
    Examples.total_measurements results = 1000 /\
    (Examples.unique_states results <= 2)%nat /\
    (Examples.fidelity results == 1)%Q.
Proof.
  intros Hdraws. exists (Aer.sample (bell_circuit 2) 1000 rng).
  assert (Hrun : Examples.demonstrate_bell_pair rng
                 = inr (Aer.sample (bell_circuit 2) 1000 rng)).
  { exact (bell_pair_histogram_sample 2 1000 rng ltac:(lia) ltac:(lia)). }
  assert (Hkeys : forall key,
            is_Some (Aer.sample (bell_circuit 2) 1000 rng !! key) ->
            key = "00"%string \/ key = "11"%string).
  { intros key Hk. rewrite sample_is_tally_all in Hk.
    apply tally_all_keys in Hk as [Hk | (k & _ & ->)].
    - rewrite lookup_empty in Hk. by destruct Hk.
    - rewrite <- key00_2, <- key11_2. by apply bell_draw_outcome. }
  assert (Htot : Aer.total (Aer.sample (bell_circuit 2) 1000 rng) = 1000).
  { rewrite sample_is_tally_all, tally_all_total, total_empty, length_seq.
    lia. }
  split; [done |]. split; [done |]. split; [exact Htot |].
  split; [by apply (two_keys_size "00" "11") |].
  unfold Examples.fidelity.
  rewrite <- (two_keys_total "00" "11") by done. rewrite Htot. reflexivity.
Qed.

Lemma demonstrate_bell_pair_statistics_witness :
  exists results : gmap string Z,
    Examples.demonstrate_bell_pair (fun k => if Nat.even k then 0%N else 3%N)
      = inr results /\
    (Examples.fidelity results == 1)%Q.
Proof.
  assert (Hdraws : Aer.born_draws (bell_circuit 2)
                     (fun k => if Nat.even k then 0%N else 3%N)).
  { intros k. rewrite bell_born.
    destruct (Nat.even k); (split; [done | simpl; lra]). }
  destruct (demonstrate_bell_pair_statistics _ Hdraws)
    as (results & Hrun & _ & _ & _ & Hfid).
  exists results. by split.
Defined.

(** *** The installation test *)

Lemma hadamard_born i :
  Aer.born (Aer.evolve (data hadamard_circuit)) i
  = if ((i =? 0) || (i =? 1))%N then (1 / 2)%R else 0%R.
Proof.
  pose proof half_sqrt2 as Hr.
  unfold Aer.born, Aer.evolve, hadamard_circuit. cbn [data fold_left].
  unfold Aer.apply_gate, Aer.ground. change (Z.to_N 0) with 0%N.
  destruct i as [|[p|p|]]; simpl;
    unfold Aer.Cnorm2, Aer.Cscale, Aer.Cadd, Aer.Csub, Aer.C0, Aer.C1;
    cbn [fst snd]; set (r := (/ sqrt 2)%R) in *;
    first [ ring | transitivity (r * r)%R; [ring | rewrite Hr; lra] ].
Qed.

Lemma hadamard_outcome i :
  Aer.outcome hadamard_circuit i
  = String (if N.testbit i 0 then "1" else "0")%char EmptyString.
Proof. done. Qed.

(** X16: [test_installation] returns a histogram whose keys are among "0"
    and "1" and whose counts sum to 1000; in the circuit it runs (Hadamard
    then measurement of one qubit) each of the two keys has probability
    1/2. *)
Theorem test_installation_is_a_fair_coin (rng : nat -> N) :
  Aer.born_draws hadamard_circuit rng ->
  Aer.prob hadamard_circuit "0" = (1 / 2)%R /\
  Aer.prob hadamard_circuit "1" = (1 / 2)%R /\
  exists counts : gmap string Z,
    TestInstall.test_installation rng = inr counts /\
    Aer.total counts = 1000 /\
    forall key, is_Some (counts !! key) ->
                key = "0"%string \/ key = "1"%string.
Proof.
  intros Hdraws.
  assert (Hp : forall key, key = "0"%string \/ key = "1"%string ->
                           Aer.prob hadamard_circuit key = (1 / 2)%R).
  { intros key Hkey. unfold Aer.prob.
    change (Aer.basis (num_qubits hadamard_circuit)) with [0; 1]%N.
    cbn [map]. rewrite !hadamard_born, !hadamard_outcome.
    unfold Aer.Rsum. cbn [fold_right].
    change (N.testbit 0 0) with false. change (N.testbit 1 0) with true.
    cbv iota. change ((0 =? 0) || (0 =? 1))%N with true.
    change ((1 =? 0) || (1 =? 1))%N with true. cbv iota.
    destruct Hkey as [-> | ->].
    - change (String.eqb "0" "0") with true.
      change (String.eqb "1" "0") with false. cbv iota. lra.
    - change (String.eqb "0" "1") with false.
      change (String.eqb "1" "1") with true. cbv iota. lra. }
  split; [apply Hp; by left |]. split; [apply Hp; by right |].
  exists (Aer.sample hadamard_circuit 1000 rng). split; [done |].
  rewrite sample_is_tally_all. split.
  - rewrite tally_all_total, total_empty, length_seq. lia.
  - intros key Hk. apply tally_all_keys in Hk as [Hk | (k & _ & ->)].
    + rewrite lookup_empty in Hk. by destruct Hk.
    + rewrite hadamard_outcome. destruct (N.testbit (rng k) 0); auto.
Qed.

Lemma test_installation_is_a_fair_coin_witness :
  Aer.prob hadamard_circuit "0" = (1 / 2)%R.
Proof.
  assert (Hdraws : Aer.born_draws hadamard_circuit (fun _ => 1%N)).
  { intros k. rewrite hadamard_born. split; [done | simpl; lra]. }
  exact (proj1 (test_installation_is_a_fair_coin _ Hdraws)).
Defined.

(** *** Keys after [measure_all] *)

Lemma measure_all_outcome gs n i :
  0 <= n ->
  Aer.outcome (mkCircuit n n (gs ++ measure_everything n)) i
  = Aer.bitstring (Z.to_nat n) (fun c => N.testbit i (Z.to_N c)).
Proof.
  intros Hn. unfold Aer.outcome. cbn [num_clbits data].
  apply bitstring_ext. intros c Hc.
  rewrite creg_bit_app. unfold measure_everything, range.
  rewrite creg_bit_measure_seq.
  destruct (Z.leb_spec 0 c), (Z.ltb_spec c (Z.of_nat (Z.to_nat n)));
    simpl; try lia; done.
Qed.

Lemma parse_bitstring (w : nat) (i acc : N) :
  parse_binary_from acc
    (Aer.bitstring w (fun c => N.testbit i (Z.to_N c)))
  = (acc * 2 ^ N.of_nat w + i mod 2 ^ N.of_nat w)%N.
Proof.
  revert acc. induction w as [|w IH]; intros acc.
  - simpl. rewrite N.mod_1_r. lia.
  - cbn [Aer.bitstring parse_binary_from]. rewrite IH.
    rewrite Nat2N.inj_succ, N.pow_succ_r'.
    rewrite (N.mul_comm 2 (2 ^ N.of_nat w)).
    rewrite (N.Div0.mod_mul_r i (2 ^ N.of_nat w) 2).
    replace (Z.to_N (Z.of_nat w)) with (N.of_nat w) by lia.
    rewrite <- N.testbit_spec'.
    destruct (N.testbit i (N.of_nat w)); simpl N.b2n;
      [change (Ascii.eqb "1" "1") with true
      | change (Ascii.eqb "0" "1") with false]; cbv iota; lia.
Qed.

(** X17: after [measure_all] on a simulator with [n >= 0] qubits, whatever
    was in the circuit before, the key under which a shot is tallied is
    the [n]-digit binary numeral of the basis index drawn, qubit 0
    rightmost: reading the key as a binary number gives the index back. *)
Theorem measure_all_keys_are_basis_indices
    (s : QuantumSimulator) (i : N) :
  sim_wf s -> 0 <= sim_num_qubits s ->
  (i < 2 ^ Z.to_N (sim_num_qubits s))%N ->
  let measured := circuit (QuantumSimulator.measure_all s).2 in
  String.length (Aer.outcome measured i) = Z.to_nat (sim_num_qubits s) /\
  parse_binary (Aer.outcome measured i) = i /\
  (forall j, (j < 2 ^ Z.to_N (sim_num_qubits s))%N ->
     Aer.outcome measured j = Aer.outcome measured i -> j = i).
Proof.
  intros Hwf Hn Hi measured.
  assert (Hout : forall j, Aer.outcome measured j
            = Aer.bitstring (Z.to_nat (sim_num_qubits s))
                (fun c => N.testbit j (Z.to_N c))).
  { intros j. unfold measured. rewrite measure_all_appends by done.
    destruct Hwf as [Hq Hc]. destruct s as [n [nq nc gs]]. simpl in *.
    subst nq nc. unfold extend_circuit. cbn [num_qubits num_clbits data].
    by apply measure_all_outcome. }
  assert (Hparse : forall j, (j < 2 ^ Z.to_N (sim_num_qubits s))%N ->
            parse_binary (Aer.outcome measured j) = j).
  { intros j Hj. rewrite Hout. unfold parse_binary. rewrite parse_bitstring.
    replace (N.of_nat (Z.to_nat (sim_num_qubits s)))
      with (Z.to_N (sim_num_qubits s)) by lia.
    rewrite N.mod_small by done. lia. }
  split; [rewrite Hout; apply bitstring_length |].
  split; [by apply Hparse |].
  intros j Hj Heq. rewrite <- (Hparse j Hj), Heq. by apply Hparse.
Qed.

Lemma measure_all_keys_are_basis_indices_witness :
  parse_binary
    (Aer.outcome
       (circuit (QuantumSimulator.measure_all
                   (mkSim 3 (mkCircuit 3 3 [HGate 0]))).2) 6)
  = 6%N.
Proof.
  assert (Hwf : sim_wf (mkSim 3 (mkCircuit 3 3 [HGate 0]))) by (by split).
  exact (proj1 (proj2 (measure_all_keys_are_basis_indices
                         (mkSim 3 (mkCircuit 3 3 [HGate 0])) 6 Hwf
                         ltac:(simpl; lia) ltac:(simpl; lia)))).
Defined.

(** *** The processor keeps a valid simulator *)

Lemma proc_appends_amplitude t :
  proc_appends (QuantumTokenProcessor._amplitude_encoding t).
Proof.
  unfold QuantumTokenProcessor._amplitude_encoding.
  auto 12 using proc_appends_for_each, sim_appends_apply_cnot with appends.
Qed.

Lemma proc_appends_phase t :
  proc_appends (QuantumTokenProcessor._phase_encoding t).
Proof.
  unfold QuantumTokenProcessor._phase_encoding.
  auto 16 using proc_appends_for_each, sim_appends_apply_cnot with appends.
Qed.

Lemma proc_appends_hybrid t :
  proc_appends (QuantumTokenProcessor._hybrid_encoding t).
Proof.
  unfold QuantumTokenProcessor._hybrid_encoding.
  auto 8 using proc_appends_amplitude, proc_appends_phase with appends.
Qed.

Lemma proc_appends_dispatch scheme t :
  proc_appends (default QuantumTokenProcessor._hybrid_encoding
                  (QuantumTokenProcessor.encoding_schemes !! scheme) t).
Proof.
  rewrite encoding_dispatch.
  repeat case_decide;
    auto using proc_appends_amplitude, proc_appends_phase, proc_appends_hybrid.
Qed.

Lemma process_token_keeps_valid t scheme rng p :
  proc_wf p -> circuit_ok (circuit (quantum_sim p)) = true ->
  proc_wf (QuantumTokenProcessor.process_token t scheme rng p).2 /\
  circuit_ok (circuit (quantum_sim
     (QuantumTokenProcessor.process_token t scheme rng p).2)) = true.
Proof.
  intros Hwf Hok. unfold QuantumTokenProcessor.process_token.
  set (rest := bind (default _ _ t) _).
  assert (Hrest : proc_appends rest).
  { unfold rest.
    auto 12 using proc_appends_dispatch, sim_appends_measure_all,
      sim_appends_run with appends. }
  clearbody rest. unfold bind.
  destruct (Z.ltb_spec (n_qubits p) 0) as [Hneg | Hnn].
  - assert (Hr : QuantumTokenProcessor.reset_sim p = (inl CircuitError, p)).
    { unfold QuantumTokenProcessor.reset_sim, QuantumSimulator.__init__,
        Qiskit.new.
      destruct (Z.ltb_spec (n_qubits p) 0); [done | lia]. }
    by rewrite Hr.
  - rewrite reset_sim_fresh by done.
    destruct (Hrest (fresh_processor (n_qubits p))) as (gs & -> & Hgs).
    split; [by repeat split |]. exact Hgs.
Qed.

(** X18: a processor made by the constructor and then used for any sequence
    of [process_token] calls, with any tokens and scheme names, always
    holds a well-formed simulator of its own qubit count whose circuit has
    every instruction inside the registers. *)
Theorem reachable_processor_is_valid
    (hf_token : option string) (loading : option exception)
    (n : Z) (p : QuantumTokenProcessor)
    (calls : list (Z * string * (nat -> N))) :
  QuantumTokenProcessor.__init__ hf_token loading n = inr p ->
  let p' := process_history calls p in
  n_qubits p' = n /\ 0 <= n /\ proc_wf p' /\
  circuit_ok (circuit (quantum_sim p')) = true.
Proof.
  intros Hinit p'.
  assert (Hp : 0 <= n /\ p = fresh_processor n).
  { unfold QuantumTokenProcessor.__init__, QuantumSimulator.__init__,
      Qiskit.new in Hinit.
    destruct hf_token as [[|? ?]|]; [done | | done].
    destruct loading; [done |].
    destruct (Z.ltb_spec n 0); simpl in Hinit; [done |].
    by injection Hinit as <-. }
  destruct Hp as [Hn ->].
  split; [apply process_history_n_qubits |]. split; [done |].
  unfold p'. clear p'.
  assert (Hinv : forall q, proc_wf q ->
            circuit_ok (circuit (quantum_sim q)) = true ->
            proc_wf (process_history calls q) /\
            circuit_ok (circuit (quantum_sim (process_history calls q)))
            = true).
  { induction calls as [|call calls IH]; intros q Hq Hok; [done |].
    unfold process_history in *. cbn [fold_left].
    destruct (process_token_keeps_valid call.1.1 call.1.2 call.2 q Hq Hok).
    by apply IH. }
  apply Hinv; [by repeat split | done].
Qed.

Lemma reachable_processor_is_valid_witness :
  circuit_ok (circuit (quantum_sim
     (process_history [(5, "hybrid"%string, fun _ => 0%N);
                       (9, "phase"%string, fun _ => 0%N)]
        (fresh_processor 2)))) = true.
Proof.
  exact (proj2 (proj2 (proj2 (reachable_processor_is_valid
           (Some "hf_token"%string) None 2 (fresh_processor 2) _ eq_refl)))).
Defined.
